(** * UMF messages: a shallow embedding of [index.js]

    The module under study builds, converts and validates UMF message
    envelopes and parses the routing string of their [to] field.  This
    file embeds the functions of [index.js] and states their properties.

    Conventions of the embedding.
    - A JavaScript string is a Rocq [string], read as its sequence of
      code units, each of them one of the 256 values of [ascii]; the
      parser compares code units with ['@'], ['-'], [':'], ['['], [']']
      and the letters of ['http'], and copies the others.  Indices and
      lengths are JavaScript numbers holding integers, kept in [Z] (so
      that [-1] of [indexOf] is available).
    - [parseRoute] is one function in the source; here it is the
      composition of [parseInstance], [parseService] and [parseMethod],
      one for each stretch of its body, so that the values between the
      stretches can be named.
    - A value that may be [undefined] is an [option]; [None] is
      [undefined].
    - A computation that may throw lives in the monad [js]; a member
      access on [undefined] throws a [TypeError], the evaluation of an
      unbound identifier a [ReferenceError].
    - [String.prototype.toLowerCase] depends on the Unicode tables of the
      runtime and does not always keep the length of its argument; it is
      a parameter of the route parser.  [toLowerCase_ascii] is its
      restriction to ASCII text. *)

From Stdlib Require Import ZArith Ascii String List Lia.
From Stdlib Require Import Floats.SpecFloat.
From stdpp Require Import base option list strings pretty gmap fin_maps.

Local Open Scope Z_scope.

(** ** Computations that may throw *)

Inductive exn : Type :=
  | TypeError (what : string)
  | ReferenceError (ident : string).

Inductive js (A : Type) : Type :=
  | Ok (a : A)
  | Throw (e : exn).
Arguments Ok {A} a.
Arguments Throw {A} e.

#[global] Instance js_ret : MRet js := fun A a => Ok a.
#[global] Instance js_bind : MBind js := fun A B f m =>
  match m with
  | Ok a => f a
  | Throw e => Throw e
  end.

(** The receiver of a method call or of a property read: [undefined]
    throws. *)
Definition recv {A : Type} (what : string) (o : option A) : js A :=
  match o with
  | Some a => Ok a
  | None => Throw (TypeError what)
  end.

(** ** Built-ins of the runtime used by the source *)

Module Str.

(** [s.length] *)
Definition len (s : string) : Z := Z.of_nat (String.length s).

(** [s.indexOf(pat)]: the first index at which [pat] occurs in [s],
    [-1] when it does not occur. *)
Fixpoint indexOf_from (i : Z) (s pat : string) : Z :=
  if String.prefix pat s then i
  else match s with
       | EmptyString => -1
       | String _ s' => indexOf_from (i + 1) s' pat
       end.

Definition indexOf (s pat : string) : Z := indexOf_from 0 s pat.

(** The clamping of an index argument of [substring] to [0 .. len]. *)
Definition clamp (s : string) (i : Z) : Z := Z.max 0 (Z.min i (len s)).

(** [s.substring(start, end)]: both arguments are clamped to the
    string, and swapped when [start] exceeds [end]. *)
Definition substring (s : string) (start end_ : Z) : string :=
  let a := clamp s start in
  let b := clamp s end_ in
  let lo := Z.min a b in
  let hi := Z.max a b in
  String.substring (Z.to_nat lo) (Z.to_nat (hi - lo)) s.

(** [s.substring(start)] *)
Definition substring_from (s : string) (start : Z) : string :=
  substring s start (len s).

(** [s.split(sep)] for a separator of one character, which is what the
    source passes (['-'] and [':']).  The result is never empty: the
    empty string splits into one empty token. *)
Fixpoint split (s : string) (sep : ascii) : list string :=
  match s with
  | EmptyString => [EmptyString]
  | String c s' =>
      if Ascii.eqb c sep then EmptyString :: split s' sep
      else match split s' sep with
           | tok :: toks => String c tok :: toks
           | [] => [String c EmptyString]
           end
  end.

(** [a.join(sep)] on an array of strings. *)
Fixpoint join (a : list string) (sep : string) : string :=
  match a with
  | [] => ""
  | [x] => x
  | x :: rest => x +:+ sep +:+ join rest sep
  end.

(** The text a template literal substitutes for a value that is a
    string or [undefined]. *)
Definition template (o : option string) : string :=
  match o with
  | Some s => s
  | None => "undefined"
  end.

(** [a.shift()], for the array that remains. *)
Definition shift (a : list string) : list string := tail a.

(** [a[0] = x]: assignment past the end of an array extends it. *)
Definition set0 (a : list string) (x : string) : list string :=
  match a with
  | [] => [x]
  | _ :: rest => x :: rest
  end.

(** Truthiness of a value that is a string or [undefined]. *)
Definition truthy (o : option string) : bool :=
  match o with
  | Some (String _ _) => true
  | _ => false
  end.

(** [s] contains the character [c]. *)
Fixpoint has (c : ascii) (s : string) : bool :=
  match s with
  | EmptyString => false
  | String d s' => Ascii.eqb d c || has c s'
  end.

(** Lower-casing of ASCII text: the letters [A]-[Z] move to [a]-[z],
    every other code unit stays. *)
Definition lower_ascii (c : ascii) : ascii :=
  let n := nat_of_ascii c in
  if (65 <=? n)%nat && (n <=? 90)%nat then ascii_of_nat (n + 32) else c.

Fixpoint toLowerCase_ascii (s : string) : string :=
  match s with
  | EmptyString => EmptyString
  | String c s' => String (lower_ascii c) (toLowerCase_ascii s')
  end.

End Str.

(** ** The route parser *)

Module Route.

Definition err_segments : string :=
  "route field has invalid number of routable segments".
Definition err_verb : string :=
  "route field has ill-formed HTTP method verb in segment".

(** The object [parseRoute] returns. *)
Record RouteResult : Type := mkRoute {
  instance : option string;
  subID : option string;
  serviceName : option string;
  httpMethod : option string;
  apiRoute : string;
  error : option string
}.

(** Lines 204-213: the instance prefix.  Returns [instance], [subID]
    and what is left in [urlRoute]. *)
Definition parseInstance (toValue : string)
  : option string * option string * string :=
  let instance := "" in
  let subID := "" in
  let urlRoute := toValue in
  let atPos := Str.indexOf urlRoute "@" in
  if -1 <? atPos then
    let instance := Str.substring urlRoute 0 atPos in
    let urlRoute := Str.substring_from urlRoute (atPos + 1) in
    let segments := Str.split instance "-" in
    if (0 <? length segments)%nat then
      (segments !! 0%nat, segments !! 1%nat, urlRoute)
    else (Some instance, Some subID, urlRoute)
  else (Some instance, Some subID, urlRoute).

(** Lines 218-225: the service name and the raw [apiRoute], from the
    segments of [urlRoute.split(':')]. *)
Definition parseService (segments : list string)
  : js (option string * string) :=
  s0 ← recv "segments[0]" (segments !! 0%nat);
  let segments :=
    if Str.indexOf s0 "http" =? 0 then
      let url := s0 +:+ ":" +:+ Str.template (segments !! 1%nat) in
      let segments := Str.shift segments in
      Str.set0 segments url
    else segments in
  let serviceName := segments !! 0%nat in
  let segments := Str.shift segments in
  mret (serviceName, Str.join segments ":").

Section Method.

Variable toLowerCase : string → string.

(** Lines 226-240: the optional HTTP method in front of [apiRoute].
    Returns [httpMethod], [apiRoute] and [error]. *)
Definition parseMethod (apiRoute : string)
  : js (option string * string * option string) :=
  let httpMethod : option string := None in
  let error : option string := None in
  let s1 := Str.indexOf apiRoute "[" in
  if s1 =? 0 then
    let s2 := Str.indexOf apiRoute "]" in
    let '(httpMethod, error) :=
      if s2 <? 0 then (httpMethod, Some err_verb)
      else (Some (toLowerCase (Str.substring apiRoute (s1 + 1) s2)), error) in
    if negb (Str.truthy error) then
      m ← recv "httpMethod" httpMethod;
      let s3 := Str.len m in
      if 0 <? s3 then
        mret (httpMethod,
              Str.substring apiRoute (s3 + 2) (Str.len apiRoute), error)
      else mret (httpMethod, apiRoute, error)
    else mret (httpMethod, apiRoute, error)
  else mret (httpMethod, apiRoute, error).

(** Lines 214-241: everything after the instance prefix.  Returns
    [serviceName], [httpMethod], [apiRoute] and [error]. *)
Definition parseRemainder (urlRoute : string)
  : js (option string * option string * string * option string) :=
  let serviceName := "" in
  let httpMethod : option string := None in
  let apiRoute := "" in
  let segments := Str.split urlRoute ":" in
  if (length segments <? 1)%nat then
    mret (Some serviceName, httpMethod, apiRoute, Some err_segments)
  else
    '(serviceName, apiRoute) ← parseService segments;
    '(httpMethod, apiRoute, error) ← parseMethod apiRoute;
    mret (serviceName, httpMethod, apiRoute, error).

(** Lines 195-250. *)
Definition parseRoute (toValue : string) : js RouteResult :=
  let '(instance, subID, urlRoute) := parseInstance toValue in
  '(serviceName, httpMethod, apiRoute, error) ← parseRemainder urlRoute;
  mret (mkRoute instance subID serviceName httpMethod apiRoute error).

End Method.

End Route.

(** ** Message envelopes *)

Module Message.

(** JavaScript values.  Objects, arrays and functions are kept by
    reference: the envelope code only tests them for truthiness and
    copies them. *)
Inductive value : Type :=
  | VUndefined
  | VNull
  | VBool (b : bool)
  | VNumber (x : spec_float)
  | VBigInt (n : Z)
  | VString (s : string)
  | VSymbol (id : nat)
  | VObject (ref : nat).

(** The truthiness test of [!v], [v && e] and [v || e]. *)
Definition ToBoolean (v : value) : bool :=
  match v with
  | VUndefined | VNull => false
  | VBool b => b
  | VNumber (S754_zero _) | VNumber S754_nan => false
  | VNumber _ => true
  | VBigInt n => negb (n =? 0)
  | VString s => negb (String.eqb s "")
  | VSymbol _ | VObject _ => true
  end.

(** A plain object: its own enumerable data properties.  The property
    names that the envelope code reads are the field names of the
    envelope; none of them is inherited from [Object.prototype]. *)
Abbreviation object := (gmap string value).

(** [o[name]] on a plain object: an absent property reads as
    [undefined]. *)
Definition read (o : object) (name : string) : value :=
  default VUndefined (o !! name).

Definition UMF_VERSION : string := "UMF/1.4.3".

Definition shortToLong : gmap string string :=
  list_to_map [("frm", "from"); ("ts", "timestamp");
               ("ver", "version"); ("bdy", "body")].
Definition longToShort : gmap string string :=
  list_to_map [("from", "frm"); ("timestamp", "ts");
               ("version", "ver"); ("body", "bdy")].

(** [name in table] *)
Definition in_table (name : string) (table : gmap string string) : bool :=
  bool_decide (is_Some (table !! name)).

(** The property key that [o[table[name]]] uses: [undefined] is
    converted to the string ["undefined"]. *)
Definition key (table : gmap string string) (name : string) : string :=
  default "undefined" (table !! name).

(** The [get] trap of the proxy, lines 81-89. *)
Definition proxy_get (shortFormat : bool) (obj : object) (name : string)
  : js value :=
  if shortFormat && in_table name longToShort then
    mret (read obj (key longToShort name))
  else if negb shortFormat && in_table name shortToLong then
    mret (read obj (key shortToLong name))
  else mret (read obj name).

(** The identifier [name] inside the [set] trap.  The parameters of the
    trap are [obj], [prop] and [value]; no enclosing function, the
    module, the module wrapper of Node or its global object binds
    [name], so that its evaluation throws. *)
Definition name_in_set_trap : js string := Throw (ReferenceError "name").

(** The [set] trap of the proxy, lines 90-98.  The result is the target
    after the assignment. *)
Definition proxy_set (shortFormat : bool) (obj : object)
    (prop : string) (v : value) : js object :=
  c1 ← (if shortFormat then
          name ← name_in_set_trap; mret (in_table name longToShort)
        else mret false);
  if c1 : bool then mret (<[key longToShort prop := v]> obj)
  else
    c2 ← (if negb shortFormat then
            name ← name_in_set_trap; mret (in_table name shortToLong)
          else mret false);
    if c2 : bool then mret (<[key shortToLong prop := v]> obj)
    else name ← name_in_set_trap; mret (<[name := v]> obj).

(** A message as the functions of the module receive it: a plain
    object, or the proxy that [createMessage] returns. *)
Inductive envelope : Type :=
  | Plain (o : object)
  | Proxy (target : object) (shortFormat : bool).

(** [message[name]] *)
Definition get (m : envelope) (name : string) : js value :=
  match m with
  | Plain o => mret (read o name)
  | Proxy target shortFormat => proxy_get shortFormat target name
  end.

(** [message[prop] = v] *)
Definition set (m : envelope) (prop : string) (v : value) : js envelope :=
  match m with
  | Plain o => mret (Plain (<[prop := v]> o))
  | Proxy target shortFormat =>
      target' ← proxy_set shortFormat target prop v;
      mret (Proxy target' shortFormat)
  end.

(** What the collaborators return during one call of [createMessage]:
    [uuid.v4()], [Utils.shortID()] and [moment().toISOString()]. *)
Record generators : Type := mkGen {
  uuid_v4 : string;
  shortID : string;
  toISOString : string
}.

(** [Object.assign(target, source)]: every own property of [source]
    is written to [target].  The writes are ordinary assignments, so
    that a property of [source] called [__proto__] would reach the
    prototype of [target] and not its properties; the union is what
    [Object.assign] does for a source without such a property
    ([ExtraStatement.ordinary]). *)
Definition assign (target source : object) : object := source ∪ target.

(** Lines 65-100.  [message] is [None] for an argument that is
    [undefined] or [null]. *)
Definition createMessage (g : generators) (message : option object)
    (shortFormat : bool) : envelope :=
  let msg :=
    if negb shortFormat then
      assign (<["mid" := VString (uuid_v4 g)]>
               (<["timestamp" := VString (toISOString g)]>
                 (<["version" := VString UMF_VERSION]> ∅)))
             (default ∅ message)
    else
      assign (<["mid" := VString (shortID g)]>
               (<["ts" := VString (toISOString g)]>
                 (<["ver" := VString UMF_VERSION]> ∅)))
             (default ∅ message) in
  Proxy msg shortFormat.

(** [(message[src]) && (convertedMessage[dst] = message[src])] *)
Definition copy_truthy (m : envelope) (src dst : string)
    (convertedMessage : object) : js object :=
  v ← get m src;
  if ToBoolean v then
    v' ← get m src; mret (<[dst := v']> convertedMessage)
  else mret convertedMessage.

(** Lines 128-140. *)
Definition messageToShort (m : envelope) : js object :=
  c ← copy_truthy m "to" "to" ∅;
  c ← copy_truthy m "from" "frm" c;
  c ← copy_truthy m "mid" "mid" c;
  c ← copy_truthy m "rmid" "rmid" c;
  c ← copy_truthy m "timestamp" "ts" c;
  c ← copy_truthy m "version" "ver" c;
  c ← copy_truthy m "via" "via" c;
  c ← copy_truthy m "for" "for" c;
  c ← copy_truthy m "body" "bdy" c;
  mret c.

(** Lines 148-160. *)
Definition messageToLong (m : envelope) : js object :=
  c ← copy_truthy m "to" "to" ∅;
  c ← copy_truthy m "frm" "from" c;
  c ← copy_truthy m "mid" "mid" c;
  c ← copy_truthy m "rmid" "rmid" c;
  c ← copy_truthy m "ts" "timestamp" c;
  c ← copy_truthy m "ver" "version" c;
  c ← copy_truthy m "via" "via" c;
  c ← copy_truthy m "for" "for" c;
  c ← copy_truthy m "bdy" "body" c;
  mret c.

(** [!a && !b], the second operand read only when the first is
    falsy. *)
Definition both_falsy (m : envelope) (a b : string) : js bool :=
  va ← get m a;
  if negb (ToBoolean va) then vb ← get m b; mret (negb (ToBoolean vb))
  else mret false.

(** Lines 168-174. *)
Definition validateMessage (m : envelope) : js bool :=
  no_origin ← both_falsy m "from" "frm";
  if no_origin : bool then mret false
  else
    to ← get m "to";
    if negb (ToBoolean to) then mret false
    else
      no_body ← both_falsy m "body" "bdy";
      if no_body : bool then mret false else mret true.

End Message.

(** ** Statements about the code

    Predicates used to state properties of the functions above. *)

Module Statement.
Import Str Route.

(** A token of the instance prefix: free of ['-'] and of ['@']. *)
Definition token (t : string) : Prop :=
  has "-" t = false ∧ has "@" t = false.

(** On the route [toValue], whose raw [apiRoute] is a bracketed method
    followed by [tail], the method is extracted and the brackets and
    the method leave the front of [apiRoute]. *)
Definition method_stripped (toLowerCase : string → string)
    (toValue : string) : Prop :=
  ∀ inst sub url svc m tail,
    parseInstance toValue = (inst, sub, url) →
    parseService (split url ":") = Ok (svc, String "[" (m +:+ String "]" tail)) →
    has "]" m = false →
    ∃ r, parseRoute toLowerCase toValue = Ok r
         ∧ httpMethod r = Some (toLowerCase m) ∧ apiRoute r = tail.

End Statement.

Module MessageStatement.
Import Message.

(** The object behind a message. *)
Definition target (m : envelope) : object :=
  match m with
  | Plain o => o
  | Proxy t _ => t
  end.

(** The value that reading [m[name]] gives. *)
Definition field (m : envelope) (name : string) : value :=
  match get m name with
  | Ok v => v
  | Throw _ => VUndefined
  end.

(** The names of the semantic fields, in the two forms. *)
Definition long_fields : list string :=
  ["to"; "from"; "mid"; "rmid"; "timestamp"; "version"; "via"; "for"; "body"].
Definition short_fields : list string :=
  ["to"; "frm"; "mid"; "rmid"; "ts"; "ver"; "via"; "for"; "bdy"].

(** The fields with two names: long name, short name. *)
Definition dual_names : list (string * string) :=
  [("from", "frm"); ("timestamp", "ts"); ("version", "ver"); ("body", "bdy")].

(** What [messageToShort] and [messageToLong] copy: the name read,
    the name written. *)
Definition short_pairs : list (string * string) :=
  [("to", "to"); ("from", "frm"); ("mid", "mid"); ("rmid", "rmid");
   ("timestamp", "ts"); ("version", "ver"); ("via", "via"); ("for", "for");
   ("body", "bdy")].
Definition long_pairs : list (string * string) :=
  [("to", "to"); ("frm", "from"); ("mid", "mid"); ("rmid", "rmid");
   ("ts", "timestamp"); ("ver", "version"); ("via", "via"); ("for", "for");
   ("bdy", "body")].

(** The name read for the name [dst] that is written. *)
Fixpoint src_of (pairs : list (string * string)) (dst : string)
  : option string :=
  match pairs with
  | [] => None
  | (s, d) :: rest => if decide (d = dst) then Some s else src_of rest dst
  end.

(** The truthy fields of [m] among [pairs], copied into [c] one after
    the other. *)
Definition copy_all (m : envelope) (pairs : list (string * string))
    (c : object) : object :=
  foldl (λ c p, if ToBoolean (field m p.1)
                then <[p.2 := field m p.1]> c else c) c pairs.

(** A value that is neither absent nor the empty string. *)
Definition nonempty (v : value) : bool :=
  match v with
  | VUndefined | VNull => false
  | VString s => negb (String.eqb s "")
  | _ => true
  end.

(** The message has the property [name], and reading it gives a
    non-empty value. *)
Definition filled (m : envelope) (name : string) : Prop :=
  ∃ v, target m !! name = Some v ∧ get m name = Ok v ∧ nonempty v = true.

(** The fields that [createMessage] generates. *)
Definition generated (shortFormat : bool) : list string :=
  if shortFormat then ["mid"; "ts"; "ver"]
  else ["mid"; "timestamp"; "version"].

(** The default that [createMessage] generates under a generated name:
    the identifier of the form under [mid], the time stamp under
    [timestamp] or [ts], the version of the protocol under [version] or
    [ver]. *)
Definition generated_default (g : generators) (shortFormat : bool)
    (name : string) : string :=
  if decide (name = "mid") then
    if shortFormat then shortID g else uuid_v4 g
  else if decide (name = if shortFormat then "ts" else "timestamp") then
    toISOString g
  else UMF_VERSION.

End MessageStatement.

(** ** Projections of a message *)

Module Projection.
Import Message.

(** [Object.keys(message)]: the proxy has no [ownKeys] trap, so that the
    names are those of its target.  The model of an object does not keep
    the order in which its properties were created; the loop below
    writes each name once, and its result is the same for every order
    ([ProjectionSpec.copy_keys_lookup]). *)
Definition keys (m : envelope) : list string :=
  match m with
  | Plain o => (map_to_list o).*1
  | Proxy t _ => (map_to_list t).*1
  end.

(** [names.forEach(k => ret[k] = message[k])] *)
Fixpoint copy_keys (m : envelope) (names : list string) (ret : object)
  : js object :=
  match names with
  | [] => mret ret
  | k :: rest => v ← get m k; copy_keys m rest (<[k := v]> ret)
  end.

(** Lines 107-111. *)
Definition messageToObject (m : envelope) : js object :=
  copy_keys m (keys m) ∅.

(** The property names that every object inherits from
    [Object.prototype].  The [in] operator of the proxy traps sees them
    in the two tables; [in_table] does not, so that a statement about
    reads of arbitrary names through a proxy excludes them. *)
Definition Object_prototype_names : list string :=
  ["constructor"; "hasOwnProperty"; "isPrototypeOf"; "propertyIsEnumerable";
   "toLocaleString"; "toString"; "valueOf"; "__proto__";
   "__defineGetter__"; "__defineSetter__";
   "__lookupGetter__"; "__lookupSetter__"].

(** The own enumerable properties of a string: its code units under
    their indices. *)
Definition index_props (s : string) : object :=
  list_to_map
    (imap (λ (i : nat) (c : ascii), (pretty i, VString (String c "")))
          (list_ascii_of_string s)).

(** The own enumerable properties that [Object.assign] copies from a
    source: none for [undefined], [null] and the other primitives, the
    indexed code units of a string, and for an object those that the
    heap [h] holds at its reference. *)
Definition own_enumerable (h : nat → object) (v : value) : object :=
  match v with
  | VObject ref => h ref
  | VString s => index_props s
  | _ => ∅
  end.

(** Lines 182-184. *)
Definition getMessageBody (h : nat → object) (m : envelope) : js object :=
  body ← get m "body";
  mret (assign ∅ (own_enumerable h body)).

End Projection.

Module ExtraStatement.
Import Str Message MessageStatement Projection.

(** No own property of the object has a name of [Object.prototype]. *)
Definition ordinary (o : object) : Prop :=
  ∀ k, k ∈ Object_prototype_names → o !! k = None.

(** The names of the other form: those that a message of the given form
    does not store. *)
Definition other_form (shortFormat : bool) : list string :=
  if shortFormat then dual_names.*1 else dual_names.*2.

(** Every property of the object is a semantic field under its long
    name, with a truthy value. *)
Definition long_form (o : object) : Prop :=
  ∀ k v, o !! k = Some v → k ∈ long_fields ∧ ToBoolean v = true.

(** The same under the short names. *)
Definition short_form (o : object) : Prop :=
  ∀ k v, o !! k = Some v → k ∈ short_fields ∧ ToBoolean v = true.

End ExtraStatement.

(** * Properties *)

(** ** The string built-ins *)

Module StrFacts.
Import Str.

#[local] Arguments String.append !_ _ / : simpl nomatch.

Lemma len_nonneg s : 0 <= len s.
Proof. unfold len. lia. Qed.

Lemma len_app a b : len (a +:+ b) = len a + len b.
Proof.
  unfold len. induction a as [|c a IH]; cbn [String.append String.length]; lia.
Qed.

Lemma len_cons c s : len (String c s) = 1 + len s.
Proof. unfold len. cbn [String.length]. lia. Qed.

Lemma prefix_char c d s :
  String.prefix (String c "") (String d s) = Ascii.eqb d c.
Proof.
  cbn. destruct (Ascii.ascii_dec c d) as [->|Hne].
  - rewrite Ascii.eqb_refl. destruct s; reflexivity.
  - symmetry. apply Ascii.eqb_neq. congruence.
Qed.

(** [indexOf] of one character: absent. *)
Lemma indexOf_from_absent c s i :
  has c s = false → indexOf_from i s (String c "") = -1.
Proof.
  revert i. induction s as [|d s IH]; intros i H; [reflexivity|].
  cbn [has] in H. apply orb_false_iff in H as [Hd Hs].
  cbn [indexOf_from]. rewrite prefix_char, Hd. apply IH, Hs.
Qed.

(** [indexOf] of one character: the first occurrence. *)
Lemma indexOf_from_first c before after i :
  has c before = false →
  indexOf_from i (before +:+ String c after) (String c "") = i + len before.
Proof.
  revert i. induction before as [|d s IH]; intros i H.
  - cbn [String.append indexOf_from]. rewrite prefix_char, Ascii.eqb_refl.
    unfold len. cbn. lia.
  - cbn [has] in H. apply orb_false_iff in H as [Hd Hs].
    cbn [String.append indexOf_from]. rewrite prefix_char, Hd.
    rewrite IH by exact Hs. rewrite len_cons. lia.
Qed.

Lemma indexOf_absent c s : has c s = false → indexOf s (String c "") = -1.
Proof. apply indexOf_from_absent. Qed.

Lemma indexOf_first c before after :
  has c before = false →
  indexOf (before +:+ String c after) (String c "") = len before.
Proof. intros H. unfold indexOf. rewrite indexOf_from_first by exact H. lia. Qed.

(** A string that has [c] splits at its first occurrence. *)
Lemma has_split c s :
  has c s = true →
  ∃ before after, s = before +:+ String c after ∧ has c before = false.
Proof.
  induction s as [|d s IH]; [discriminate|].
  cbn [has]. destruct (Ascii.eqb_spec d c) as [->|Hne]; cbn [orb].
  - intros _. exists "", s. split; reflexivity.
  - intros H. destruct (IH H) as (b & a & -> & Hb).
    exists (String d b), a. split; [reflexivity|].
    cbn [has]. rewrite Hb. apply Ascii.eqb_neq in Hne. rewrite Hne. reflexivity.
Qed.

(** [indexOf] finds a character exactly when the string has it. *)
Lemma indexOf_found c s : (-1 <? indexOf s (String c "")) = has c s.
Proof.
  destruct (has c s) eqn:H.
  - destruct (has_split c s H) as (b & a & -> & Hb).
    rewrite indexOf_first by exact Hb. pose proof (len_nonneg b).
    apply Z.ltb_lt. lia.
  - rewrite indexOf_absent by exact H. reflexivity.
Qed.

(** [indexOf] is [0] exactly when the string begins with the
    character. *)
Lemma indexOf_zero c s :
  (indexOf s (String c "") =? 0) = String.prefix (String c "") s.
Proof.
  destruct s as [|d s]; [reflexivity|].
  unfold indexOf. cbn [indexOf_from]. rewrite prefix_char.
  destruct (Ascii.eqb d c) eqn:Hd; [reflexivity|].
  destruct (has c s) eqn:H.
  - destruct (has_split c s H) as (b & a & -> & Hb).
    rewrite indexOf_from_first by exact Hb. pose proof (len_nonneg b).
    apply Z.eqb_neq. lia.
  - rewrite indexOf_from_absent by exact H. reflexivity.
Qed.

Lemma substring_std_app a b c :
  String.substring (String.length a) (String.length b) (a +:+ b +:+ c) = b.
Proof.
  induction a as [|x a IH]; cbn [String.length String.append].
  - induction b as [|y b IHb]; cbn [String.length String.append].
    + destruct c; reflexivity.
    + cbn [String.substring]. f_equal. exact IHb.
  - cbn [String.substring]. exact IH.
Qed.

(** [substring] cuts the middle out of a concatenation. *)
Lemma substring_middle a b c :
  substring (a +:+ b +:+ c) (len a) (len a + len b) = b.
Proof.
  unfold substring, clamp. rewrite !len_app.
  pose proof (len_nonneg a). pose proof (len_nonneg b).
  pose proof (len_nonneg c).
  replace (Z.min (Z.max 0 (Z.min (len a) (len a + (len b + len c))))
             (Z.max 0 (Z.min (len a + len b) (len a + (len b + len c)))))
    with (len a) by lia.
  replace (Z.max (Z.max 0 (Z.min (len a) (len a + (len b + len c))))
             (Z.max 0 (Z.min (len a + len b) (len a + (len b + len c)))) - len a)
    with (len b) by lia.
  unfold len. rewrite !Nat2Z.id. apply substring_std_app.
Qed.

Lemma append_empty_r s : s +:+ "" = s.
Proof. induction s; cbn; congruence. Qed.

Lemma append_assoc a b c : (a +:+ b) +:+ c = a +:+ b +:+ c.
Proof. induction a; cbn; congruence. Qed.

Lemma substring_prefix a b : substring (a +:+ b) 0 (len a) = a.
Proof.
  pose proof (substring_middle "" a b) as H.
  cbn [String.append] in H. exact H.
Qed.

Lemma substring_suffix a b : substring (a +:+ b) (len a) (len (a +:+ b)) = b.
Proof.
  pose proof (substring_middle a b "") as H.
  rewrite append_empty_r in H. rewrite len_app. exact H.
Qed.

Lemma substring_from_suffix a b : substring_from (a +:+ b) (len a) = b.
Proof. apply substring_suffix. Qed.

(** [split] never returns the empty array. *)
Lemma split_cons s sep : ∃ tok toks, split s sep = tok :: toks.
Proof.
  induction s as [|c s (tok & toks & IH)]; cbn [split]; [eauto|].
  destruct (Ascii.eqb c sep); [eauto|]. rewrite IH. eauto.
Qed.

Lemma split_length s sep : (0 < length (split s sep))%nat.
Proof. destruct (split_cons s sep) as (t & ts & ->). cbn. lia. Qed.

(** A string without the separator is one token. *)
Lemma split_token s sep : has sep s = false → split s sep = [s].
Proof.
  induction s as [|c s IH]; [reflexivity|].
  cbn [has split]. intros H. apply orb_false_iff in H as [Hc Hs].
  rewrite Hc, IH by exact Hs. reflexivity.
Qed.

(** A token, the separator, and more text. *)
Lemma split_app tok sep rest :
  has sep tok = false →
  split (tok +:+ String sep rest) sep = tok :: split rest sep.
Proof.
  induction tok as [|c s IH]; intros H.
  - cbn [String.append split]. rewrite Ascii.eqb_refl. reflexivity.
  - cbn [has] in H. apply orb_false_iff in H as [Hc Hs].
    cbn [String.append split]. rewrite Hc, IH by exact Hs. reflexivity.
Qed.

(** [split] undoes [join] on tokens that are free of the separator. *)
Lemma split_join tok toks sep :
  Forall (λ t, has sep t = false) (tok :: toks) →
  split (join (tok :: toks) (String sep "")) sep = tok :: toks.
Proof.
  revert tok. induction toks as [|t toks IH]; intros tok H.
  - apply split_token. inversion H; assumption.
  - inversion H as [|? ? Htok Hrest]; subst.
    change (join (tok :: t :: toks) (String sep ""))
      with (tok +:+ String sep (join (t :: toks) (String sep ""))).
    rewrite split_app by exact Htok. rewrite IH by exact Hrest. reflexivity.
Qed.

(** [join] undoes [split]. *)
Lemma join_split s sep : join (split s sep) (String sep "") = s.
Proof.
  induction s as [|c s IH]; [reflexivity|]. cbn [split].
  destruct (Ascii.eqb_spec c sep) as [->|Hne].
  - destruct (split_cons s sep) as (t & ts & E). rewrite E in *.
    change (join ("" :: t :: ts) (String sep ""))
      with (String sep (join (t :: ts) (String sep ""))).
    rewrite IH. reflexivity.
  - destruct (split_cons s sep) as (t & ts & E). rewrite E in *.
    destruct ts as [|t' ts]; cbn [join] in *; rewrite <- IH; reflexivity.
Qed.

Lemma has_app c a b : has c (a +:+ b) = has c a || has c b.
Proof.
  induction a as [|d a IH]; [reflexivity|].
  cbn [String.append has]. rewrite IH, orb_assoc. reflexivity.
Qed.

(** No token of [split] holds the separator. *)
Lemma split_free s sep : Forall (λ t, has sep t = false) (split s sep).
Proof.
  induction s as [|c s IH]; cbn [split]; [repeat constructor|].
  destruct (Ascii.eqb c sep) eqn:Hc; [constructor; [reflexivity|exact IH]|].
  destruct (split s sep) as [|t ts].
  - repeat constructor. cbn [has]. rewrite Hc. reflexivity.
  - inversion IH; subst. constructor; [|assumption].
    cbn [has]. rewrite Hc. assumption.
Qed.

(** A character that the string lacks is in none of its tokens. *)
Lemma split_absent c s sep :
  has c s = false → Forall (λ t, has c t = false) (split s sep).
Proof.
  induction s as [|d s IH]; cbn [split has]; [repeat constructor|].
  intros H. apply orb_false_iff in H as [Hd Hs]. specialize (IH Hs).
  destruct (Ascii.eqb d sep); [constructor; [reflexivity|exact IH]|].
  destruct (split s sep) as [|t ts].
  - repeat constructor. cbn [has]. rewrite Hd. reflexivity.
  - inversion IH; subst. constructor; [|assumption].
    cbn [has]. rewrite Hd. assumption.
Qed.

(** A character other than the separator that no token holds is not
    in their [join]. *)
Lemma join_absent c toks sep :
  Ascii.eqb sep c = false →
  Forall (λ t, has c t = false) toks →
  has c (join toks (String sep "")) = false.
Proof.
  intros Hsep. induction toks as [|t toks IH]; intros H; [reflexivity|].
  inversion H as [|? ? Ht Hts]; subst. destruct toks as [|t' toks].
  - exact Ht.
  - change (join (t :: t' :: toks) (String sep ""))
      with (t +:+ String sep (join (t' :: toks) (String sep ""))).
    rewrite has_app, Ht. cbn [has orb]. rewrite Hsep. exact (IH Hts).
Qed.

Lemma toLowerCase_ascii_length s :
  String.length (toLowerCase_ascii s) = String.length s.
Proof. induction s; cbn; congruence. Qed.

End StrFacts.

(** ** The route parser *)

Module RouteSpec.
Import Str StrFacts Route.

#[local] Arguments String.append !_ _ / : simpl nomatch.

(** With an ['@'], the prefix before the first one is split on ['-']. *)
Lemma parseInstance_at before after :
  has "@" before = false →
  parseInstance (before +:+ String "@" after)
  = (split before "-" !! 0%nat, split before "-" !! 1%nat, after).
Proof.
  intros H. unfold parseInstance.
  rewrite indexOf_first by exact H.
  pose proof (len_nonneg before) as Hlen.
  replace (-1 <? len before) with true by (symmetry; apply Z.ltb_lt; lia).
  rewrite substring_prefix.
  pose proof (split_length before "-") as Hs.
  apply Nat.ltb_lt in Hs. rewrite Hs.
  replace (before +:+ String "@" after)
    with ((before +:+ "@") +:+ after) at 1
    by (rewrite append_assoc; reflexivity).
  replace (len before + 1) with (len (before +:+ "@"))
    by (rewrite len_app; reflexivity).
  rewrite substring_from_suffix. reflexivity.
Qed.

(** Without an ['@'] nothing is taken off. *)
Lemma parseInstance_no_at toValue :
  has "@" toValue = false → parseInstance toValue = (Some "", Some "", toValue).
Proof.
  intros H. unfold parseInstance. rewrite indexOf_found, H. reflexivity.
Qed.

(** The service name is found in every array that [split] returns. *)
Lemma parseService_ok urlRoute :
  ∃ svc api, parseService (split urlRoute ":") = Ok (svc, api).
Proof.
  destruct (split_cons urlRoute ":") as (t & ts & ->).
  unfold parseService. cbn. eauto.
Qed.

Section Method.

Variable toLowerCase : string → string.

(** No leading ['[']: nothing is extracted. *)
Lemma parseMethod_plain api :
  String.prefix "[" api = false →
  parseMethod toLowerCase api = Ok (None, api, None).
Proof.
  intros H. unfold parseMethod. rewrite indexOf_zero, H. reflexivity.
Qed.

(** A leading ['['] without a [']']. *)
Lemma parseMethod_unterminated rest :
  has "]" rest = false →
  parseMethod toLowerCase (String "[" rest)
  = Ok (None, String "[" rest, Some err_verb).
Proof.
  intros H. unfold parseMethod.
  rewrite indexOf_zero, prefix_char, Ascii.eqb_refl.
  rewrite indexOf_absent by (cbn [has]; rewrite H; reflexivity).
  reflexivity.
Qed.

(** A leading ['['] with a [']']: the method is the lower-cased
    text between them; as many characters as the method has, and two
    more, leave the front of [apiRoute], unless the method is
    empty. *)
Lemma parseMethod_bracketed m tail :
  has "]" m = false →
  let api := String "[" (m +:+ String "]" tail) in
  parseMethod toLowerCase api
  = Ok (Some (toLowerCase m),
        if 0 <? len (toLowerCase m)
        then substring api (len (toLowerCase m) + 2) (len api) else api,
        None).
Proof.
  intros H api.
  assert (E1 : indexOf api "[" = 0)
    by exact (indexOf_first "[" "" _ eq_refl).
  assert (E2 : indexOf api "]" = 1 + len m).
  { subst api. rewrite <- (len_cons "[" m).
    apply (indexOf_first "]" (String "[" m) tail).
    cbn [has]. rewrite H. reflexivity. }
  assert (E3 : substring api 1 (1 + len m) = m)
    by exact (substring_middle "[" m (String "]" tail)).
  pose proof (len_nonneg m) as Hm.
  unfold parseMethod. rewrite E1, E2.
  change (0 =? 0) with true. change (0 + 1) with 1. cbv iota.
  replace (1 + len m <? 0) with false by (symmetry; apply Z.ltb_ge; lia).
  rewrite E3. cbn [truthy negb recv mbind js_bind].
  destruct (0 <? len (toLowerCase m)); reflexivity.
Qed.

(** When lower-casing keeps the length of a non-empty method, what
    leaves the front of [apiRoute] is the bracketed method. *)
Lemma strip_method m tail (lowered : string) :
  len lowered = len m →
  substring (String "[" (m +:+ String "]" tail)) (len lowered + 2)
    (len (String "[" (m +:+ String "]" tail))) = tail.
Proof.
  intros ->.
  replace (String "[" (m +:+ String "]" tail))
    with ((String "[" m +:+ "]") +:+ tail)
    by (rewrite append_assoc; reflexivity).
  replace (len m + 2) with (len (String "[" m +:+ "]"))
    by (rewrite len_app, len_cons; change (len "]") with 1; lia).
  apply substring_suffix.
Qed.

(** [parseRemainder] returns for every string. *)
Lemma parseRemainder_ok urlRoute :
  ∃ svc m api e,
    parseRemainder toLowerCase urlRoute = Ok (svc, m, api, e)
    ∧ (e = None ∨ e = Some err_verb).
Proof.
  unfold parseRemainder.
  pose proof (split_length urlRoute ":") as Hl.
  replace (length (split urlRoute ":") <? 1)%nat with false
    by (symmetry; apply Nat.ltb_ge; lia).
  destruct (parseService_ok urlRoute) as (svc & api & ->).
  cbn [mbind js_bind].
  destruct (String.prefix "[" api) eqn:Hp.
  - destruct api as [|c rest]; [discriminate|].
    rewrite prefix_char in Hp. apply Ascii.eqb_eq in Hp. subst c.
    destruct (has "]" rest) eqn:Hr.
    + destruct (has_split _ _ Hr) as (m & tail & -> & Hm).
      rewrite parseMethod_bracketed by exact Hm. cbn. eauto 10.
    + rewrite parseMethod_unterminated by exact Hr. cbn. eauto 10.
  - rewrite parseMethod_plain by exact Hp. cbn. eauto 10.
Qed.

(** The result of [parseRoute], from the results of its parts. *)
Lemma parseRoute_parts toValue inst sub url svc api0 m api e :
  parseInstance toValue = (inst, sub, url) →
  parseService (split url ":") = Ok (svc, api0) →
  parseMethod toLowerCase api0 = Ok (m, api, e) →
  parseRoute toLowerCase toValue = Ok (mkRoute inst sub svc m api e).
Proof.
  intros Hi Hs Hm. unfold parseRoute, parseRemainder. rewrite Hi.
  pose proof (split_length url ":") as Hl.
  replace (length (split url ":") <? 1)%nat with false
    by (symmetry; apply Nat.ltb_ge; lia).
  rewrite Hs. cbn [mbind js_bind]. rewrite Hm. reflexivity.
Qed.

End Method.

Import Statement.

(** C1.  On the route of the test suite,
    ['fa1ae8d5-86fc-44af-aad8-cd2740aef041@test-service:[GET]/v1/somedata'],
    [parseRoute] returns the service name ['test-service'], the method
    ['get'] and the path ['/v1/somedata'], but its [instance] is
    ['fa1ae8d5'], the text before the first ['-'] of the instance id, and
    not the instance id that the test suite expects; the next token,
    ['86fc'], is its [subID]. *)
Theorem parseRoute_test_route :
  let id := "fa1ae8d5-86fc-44af-aad8-cd2740aef041" in
  ∃ r, parseRoute toLowerCase_ascii
         (id +:+ "@test-service:[GET]/v1/somedata") = Ok r
       ∧ instance r = Some "fa1ae8d5" ∧ instance r ≠ Some id
       ∧ subID r = Some "86fc"
       ∧ serviceName r = Some "test-service"
       ∧ httpMethod r = Some "get"
       ∧ apiRoute r = "/v1/somedata"
       ∧ error r = None.
Proof.
  intros id. eexists. split; [vm_compute; reflexivity|].
  cbn. repeat split; discriminate.
Qed.

(** C5.  Every route with an ['@'] is a sequence of ['-']-separated
    tokens, the first ['@'], and a remainder; [parseRoute] returns the
    first token as [instance] and the second, when there is one, as
    [subID], whatever tokens follow, and parses the remainder for the
    other fields.  On a route without ['@'], [instance] and [subID] are
    empty strings and the whole route is parsed as the remainder. *)
Theorem parseRoute_instance_segment (toLowerCase : string → string) :
  (∀ toValue, has "@" toValue = true →
     ∃ tok toks after,
       toValue = join (tok :: toks) "-" +:+ String "@" after
       ∧ Forall token (tok :: toks))
  ∧ (∀ tok toks after,
       Forall token (tok :: toks) →
       parseRoute toLowerCase (join (tok :: toks) "-" +:+ String "@" after)
       = ('(svc, m, api, e) ← parseRemainder toLowerCase after;
          mret (mkRoute (Some tok) (toks !! 0%nat) svc m api e)))
  ∧ (∀ toValue, has "@" toValue = false →
       parseRoute toLowerCase toValue
       = ('(svc, m, api, e) ← parseRemainder toLowerCase toValue;
          mret (mkRoute (Some "") (Some "") svc m api e))).
Proof.
  split; [|split].
  - intros toValue H.
    destruct (has_split _ _ H) as (before & after & -> & Hb).
    destruct (split_cons before "-") as (tok & toks & E).
    exists tok, toks, after. split.
    + rewrite <- E, join_split. reflexivity.
    + pose proof (split_free before "-") as H1.
      pose proof (split_absent "@" before "-" Hb) as H2.
      rewrite E in H1, H2. revert H1 H2.
      generalize (tok :: toks). intros l H1.
      induction H1; intros H2; inversion H2; subst; constructor;
        [split; assumption|auto].
  - intros tok toks after H.
    assert (H1 : Forall (λ t, has "-" t = false) (tok :: toks))
      by (eapply Forall_impl; [exact H|intros ? [? ?]; assumption]).
    assert (H2 : Forall (λ t, has "@" t = false) (tok :: toks))
      by (eapply Forall_impl; [exact H|intros ? [? ?]; assumption]).
    unfold parseRoute.
    rewrite parseInstance_at by (apply join_absent; [reflexivity|exact H2]).
    rewrite split_join by exact H1. reflexivity.
  - intros toValue H. unfold parseRoute.
    rewrite parseInstance_no_at by exact H. reflexivity.
Qed.

Lemma parseRoute_instance_segment_witness :
  (∃ tok toks after,
     "a-b-c@svc:/x" = join (tok :: toks) "-" +:+ String "@" after
     ∧ Forall token (tok :: toks))
  ∧ Forall token ["a"; "b"; "c"]
  ∧ parseRoute toLowerCase_ascii "a-b-c@svc:/x"
    = Ok (mkRoute (Some "a") (Some "b") (Some "svc") None "/x" None)
  ∧ has "@" "svc:/x" = false
  ∧ parseRoute toLowerCase_ascii "svc:/x"
    = Ok (mkRoute (Some "") (Some "") (Some "svc") None "/x" None).
Proof.
  assert (H : Forall token ["a"; "b"; "c"])
    by (repeat constructor).
  destruct (parseRoute_instance_segment toLowerCase_ascii) as (H0 & H1 & H2).
  split; [exact (H0 "a-b-c@svc:/x" eq_refl)|].
  split; [exact H|]. split; [exact (H1 "a" ["b"; "c"] "svc:/x" H)|].
  split; [reflexivity|]. exact (H2 "svc:/x" eq_refl).
Defined.

(** C6, as the code has it.  When the raw [apiRoute] begins with
    ['[']: without a [']'] in it, [error] is the ill-formed-verb
    message; otherwise [httpMethod] is the lower-cased text between
    ['['] and the first [']'], and, lower-casing having kept the length
    of that text, [apiRoute] loses ['['], the text and [']'] when the
    text is not empty, and stays as it is when the text is empty. *)
Theorem parseRoute_http_method (toLowerCase : string → string)
    toValue inst sub url svc rest :
  parseInstance toValue = (inst, sub, url) →
  parseService (split url ":") = Ok (svc, String "[" rest) →
  (has "]" rest = false →
     parseRoute toLowerCase toValue
     = Ok (mkRoute inst sub svc None (String "[" rest) (Some err_verb)))
  ∧ (∀ m tail,
       rest = m +:+ String "]" tail → has "]" m = false →
       ∃ api,
         parseRoute toLowerCase toValue
         = Ok (mkRoute inst sub svc (Some (toLowerCase m)) api None)
         ∧ (len (toLowerCase m) = len m →
            api = if String.eqb m "" then String "[" rest else tail)).
Proof.
  intros Hi Hs. split.
  - intros Hr. eapply parseRoute_parts; [exact Hi|exact Hs|].
    apply parseMethod_unterminated, Hr.
  - intros m tail -> Hm. eexists. split.
    + eapply parseRoute_parts; [exact Hi|exact Hs|].
      apply parseMethod_bracketed, Hm.
    + intros Hlen. cbv zeta. destruct m as [|c m].
      * rewrite Hlen. reflexivity.
      * rewrite Hlen at 1. rewrite len_cons.
        pose proof (len_nonneg m).
        replace (0 <? 1 + len m) with true by (symmetry; apply Z.ltb_lt; lia).
        cbn [String.eqb]. apply strip_method, Hlen.
Qed.

Lemma parseRoute_http_method_witness :
  parseRoute toLowerCase_ascii "svc:[GET"
  = Ok (mkRoute (Some "") (Some "") (Some "svc") None "[GET" (Some err_verb))
  ∧ ∃ api,
      parseRoute toLowerCase_ascii "svc:[GET]/x"
      = Ok (mkRoute (Some "") (Some "") (Some "svc") (Some "get") api None)
      ∧ api = "/x".
Proof.
  split.
  - exact (proj1 (parseRoute_http_method toLowerCase_ascii
             "svc:[GET" (Some "") (Some "") "svc:[GET" (Some "svc") "GET"
             eq_refl eq_refl) eq_refl).
  - destruct (proj2 (parseRoute_http_method toLowerCase_ascii
             "svc:[GET]/x" (Some "") (Some "") "svc:[GET]/x" (Some "svc")
             "GET]/x" eq_refl eq_refl) "GET" "/x" eq_refl eq_refl)
      as (api & E & Hapi).
    exists api. split; [exact E|exact (Hapi eq_refl)].
Defined.

(** C6, as the claim has it, fails on ['svc:[]/x']: the method between
    the brackets is empty, and the brackets stay in front of
    [apiRoute]. *)
Lemma parseRoute_empty_method_kept :
  ¬ method_stripped toLowerCase_ascii "svc:[]/x".
Proof.
  intros H.
  destruct (H (Some "") (Some "") "svc:[]/x" (Some "svc") "" "/x"
              eq_refl eq_refl eq_refl) as (r & E & _ & Hapi).
  vm_compute in E. injection E as <-. discriminate Hapi.
Qed.

(** C7.  [parseRoute] returns a result for every string: it throws on
    none, and the [error] of the result is either absent or the
    ill-formed-verb message. *)
Theorem parseRoute_never_throws (toLowerCase : string → string) toValue :
  ∃ r, parseRoute toLowerCase toValue = Ok r
       ∧ (error r = None ∨ error r = Some err_verb).
Proof.
  unfold parseRoute.
  destruct (parseInstance toValue) as [[inst sub] url].
  destruct (parseRemainder_ok toLowerCase url) as (svc & m & api & e & -> & He).
  eexists. split; [reflexivity|exact He].
Qed.

(** C9.  When the raw [apiRoute] does not begin with ['['],
    [httpMethod] is [undefined], [apiRoute] is the raw one and there is
    no error; an empty remainder gives an empty [serviceName] and an
    empty [apiRoute] without error; and ['client:/'] parses to the
    service ['client'] and the path ['/'], with an empty [instance],
    no method and no error. *)
Theorem parseRoute_without_method (toLowerCase : string → string) :
  (∀ toValue inst sub url svc api0,
     parseInstance toValue = (inst, sub, url) →
     parseService (split url ":") = Ok (svc, api0) →
     (∀ rest, api0 ≠ String "[" rest) →
     parseRoute toLowerCase toValue = Ok (mkRoute inst sub svc None api0 None))
  ∧ (∀ toValue inst sub,
       parseInstance toValue = (inst, sub, "") →
       parseRoute toLowerCase toValue
       = Ok (mkRoute inst sub (Some "") None "" None))
  ∧ parseRoute toLowerCase "client:/"
    = Ok (mkRoute (Some "") (Some "") (Some "client") None "/" None).
Proof.
  assert (H1 : ∀ toValue inst sub url svc api0,
     parseInstance toValue = (inst, sub, url) →
     parseService (split url ":") = Ok (svc, api0) →
     (∀ rest, api0 ≠ String "[" rest) →
     parseRoute toLowerCase toValue = Ok (mkRoute inst sub svc None api0 None)).
  { intros toValue inst sub url svc api0 Hi Hs Hb.
    eapply parseRoute_parts; [exact Hi|exact Hs|].
    apply parseMethod_plain. destruct api0 as [|c rest]; [reflexivity|].
    rewrite prefix_char. apply Ascii.eqb_neq. intros ->. exact (Hb rest eq_refl). }
  split; [exact H1|]. split.
  - intros toValue inst sub Hi.
    apply (H1 toValue inst sub "" (Some "") "" Hi eq_refl). discriminate.
  - apply (H1 "client:/" (Some "") (Some "") "client:/" (Some "client") "/"
             eq_refl eq_refl). discriminate.
Qed.

Lemma parseRoute_without_method_witness :
  parseRoute toLowerCase_ascii "a@svc:/v1/x"
  = Ok (mkRoute (Some "a") None (Some "svc") None "/v1/x" None)
  ∧ parseRoute toLowerCase_ascii "a-b@"
    = Ok (mkRoute (Some "a") (Some "b") (Some "") None "" None).
Proof.
  destruct (parseRoute_without_method toLowerCase_ascii) as (H1 & H2 & _).
  split.
  - apply (H1 "a@svc:/v1/x" (Some "a") None "svc:/v1/x" (Some "svc") "/v1/x"
             eq_refl eq_refl). discriminate.
  - exact (H2 "a-b@" (Some "a") (Some "b") eq_refl).
Defined.

End RouteSpec.

(** ** Message envelopes *)

Module MessageSpec.
Import Message MessageStatement.

(** Reading a property of a message never throws. *)
Lemma get_ok m name : get m name = Ok (field m name).
Proof.
  unfold field. destruct m as [o|t sf]; [reflexivity|].
  cbn [get]. unfold proxy_get.
  destruct (sf && in_table name longToShort); [reflexivity|].
  destruct (negb sf && in_table name shortToLong); reflexivity.
Qed.

Lemma field_plain o name : field (Plain o) name = read o name.
Proof. reflexivity. Qed.

Lemma copy_truthy_ok m src dst c :
  copy_truthy m src dst c
  = Ok (if ToBoolean (field m src) then <[dst := field m src]> c else c).
Proof.
  unfold copy_truthy. rewrite get_ok. cbn [mbind js_bind].
  destruct (ToBoolean (field m src)); reflexivity.
Qed.

Lemma messageToShort_eq m : messageToShort m = Ok (copy_all m short_pairs ∅).
Proof.
  unfold messageToShort.
  repeat (rewrite copy_truthy_ok; cbn [mbind js_bind]). reflexivity.
Qed.

Lemma messageToLong_eq m : messageToLong m = Ok (copy_all m long_pairs ∅).
Proof.
  unfold messageToLong.
  repeat (rewrite copy_truthy_ok; cbn [mbind js_bind]). reflexivity.
Qed.

Lemma src_of_Some pairs dst src : src_of pairs dst = Some src → dst ∈ pairs.*2.
Proof.
  induction pairs as [|[s d] rest IH]; [discriminate|].
  cbn [src_of fmap list_fmap snd]. case_decide as E.
  - subst. intros _. apply list_elem_of_here.
  - intros H. apply list_elem_of_further, IH, H.
Qed.

Lemma copy_all_cons m src dst rest c :
  copy_all m ((src, dst) :: rest) c
  = copy_all m rest
      (if ToBoolean (field m src) then <[dst := field m src]> c else c).
Proof. reflexivity. Qed.

(** What a sequence of guarded copies leaves under each name. *)
Lemma lookup_copy_all m pairs :
  NoDup pairs.*2 →
  ∀ c k,
    copy_all m pairs c !! k
    = match src_of pairs k with
      | Some src =>
          if ToBoolean (field m src) then Some (field m src) else c !! k
      | None => c !! k
      end.
Proof.
  induction pairs as [|[s d] rest IH]; intros Hnd c k; [reflexivity|].
  cbn [fmap list_fmap snd] in Hnd. apply NoDup_cons in Hnd as [Hd Hrest].
  rewrite copy_all_cons, (IH Hrest). cbn [src_of]. case_decide as E.
  - subst k. destruct (src_of rest d) as [src|] eqn:Hsrc.
    { exfalso. apply Hd. eapply src_of_Some, Hsrc. }
    destruct (ToBoolean (field m s)); [apply lookup_insert_eq|reflexivity].
  - destruct (ToBoolean (field m s)); [|reflexivity].
    rewrite (lookup_insert_ne _ _ _ _ E). reflexivity.
Qed.

Lemma short_pairs_NoDup : NoDup short_pairs.*2.
Proof. apply (bool_decide_unpack _). vm_compute. reflexivity. Qed.

Lemma long_pairs_NoDup : NoDup long_pairs.*2.
Proof. apply (bool_decide_unpack _). vm_compute. reflexivity. Qed.

(** The object that [messageToShort] returns, name by name. *)
Lemma messageToShort_lookup m :
  ∃ s, messageToShort m = Ok s
       ∧ ∀ k, s !! k = match src_of short_pairs k with
                       | Some src => if ToBoolean (field m src)
                                     then Some (field m src) else None
                       | None => None
                       end.
Proof.
  eexists. split; [apply messageToShort_eq|]. intros k.
  rewrite (lookup_copy_all _ _ short_pairs_NoDup), lookup_empty. reflexivity.
Qed.

(** The object that [messageToLong] returns, name by name. *)
Lemma messageToLong_lookup m :
  ∃ l, messageToLong m = Ok l
       ∧ ∀ k, l !! k = match src_of long_pairs k with
                       | Some src => if ToBoolean (field m src)
                                     then Some (field m src) else None
                       | None => None
                       end.
Proof.
  eexists. split; [apply messageToLong_eq|]. intros k.
  rewrite (lookup_copy_all _ _ long_pairs_NoDup), lookup_empty. reflexivity.
Qed.

(** Evaluation of the closed table lookups of a goal. *)
Ltac eval_closed t := let r := eval vm_compute in t in change t with r.
Ltac eval_tables :=
  repeat match goal with
    | |- context [src_of ?p ?k] => progress eval_closed (src_of p k)
    | |- context [bool_decide (?k ∈ ?l)] =>
        progress eval_closed (bool_decide (k ∈ l))
    | |- context [in_table ?k ?t] => progress eval_closed (in_table k t)
    end;
  cbv beta iota.

(** Case analysis of a name over the nine names of a form. *)
Ltac is_name k a := destruct (decide (k = a)) as [?|?]; [subst k|].
Ltac destruct_name k a b c d e f g h i :=
  is_name k a; [|is_name k b; [|is_name k c; [|is_name k d;
  [|is_name k e; [|is_name k f; [|is_name k g; [|is_name k h;
  [|is_name k i]]]]]]]].

Ltac other_name :=
  match goal with
  | |- context [src_of ?p ?k] =>
      replace (src_of p k) with (@None string)
        by (cbv [src_of p];
            repeat (destruct (decide _) as [?|?]; [congruence|]);
            reflexivity)
  end;
  match goal with
  | |- context [bool_decide (?k ∈ ?l)] =>
      rewrite (bool_decide_eq_false_2 (k ∈ l))
        by (unfold l; rewrite !elem_of_cons, elem_of_nil; tauto)
  end;
  reflexivity.

(** Reading a generated field of a proxy reads the target. *)
Lemma get_generated t shortFormat name :
  name ∈ generated shortFormat →
  get (Proxy t shortFormat) name = Ok (read t name).
Proof.
  intros H. cbn [get]. unfold proxy_get.
  destruct shortFormat; cbn [generated] in H;
    repeat (apply elem_of_cons in H as [->|H]);
    try (apply elem_of_nil in H; contradiction);
    eval_tables; reflexivity.
Qed.

(** The target of a new message holds the overrides, and the defaults
    under the names that the overrides leave free. *)
Lemma createMessage_lookup g message shortFormat name :
  name ∈ generated shortFormat →
  ∃ d, target (createMessage g message shortFormat) !! name
       = Some (default (VString d) (default ∅ message !! name))
       ∧ (d = UMF_VERSION ∨ d = toISOString g
          ∨ (shortFormat = false ∧ d = uuid_v4 g)
          ∨ (shortFormat = true ∧ d = shortID g)).
Proof.
  intros H. unfold createMessage, assign. cbn [target].
  destruct shortFormat; cbn [generated negb] in *;
    repeat (apply elem_of_cons in H as [->|H]);
    try (apply elem_of_nil in H; contradiction);
    eexists; rewrite lookup_union;
    (destruct (default ∅ message !! _) as [v|];
     (split; [by simplify_map_eq|]); auto).
Qed.

(** Reading a dual-named field by the name of the other form reads
    what the target holds under the name of its own form. *)
Lemma get_other_form t long short :
  (long, short) ∈ dual_names →
  get (Proxy t true) long = Ok (read t short)
  ∧ get (Proxy t false) short = Ok (read t long).
Proof.
  intros H. cbn [get]. unfold proxy_get, dual_names in *.
  repeat (apply elem_of_cons in H as [[= -> ->]|H]);
    try (apply elem_of_nil in H; contradiction);
    eval_tables; split; reflexivity.
Qed.

(** C2.  Every write through the proxy that [createMessage] returns
    throws a [ReferenceError]: the conditions of the [set] trap test the
    unbound identifier [name], where the [get] trap tests its
    parameter of that name.  Nothing is stored. *)
Theorem set_through_proxy_throws g message shortFormat prop v :
  set (createMessage g message shortFormat) prop v
  = Throw (ReferenceError "name").
Proof. destruct shortFormat; reflexivity. Qed.

(** C3.  [validateMessage] returns for every message, and returns
    [true] exactly when [to] is truthy, one of [from] and [frm] is
    truthy, and one of [body] and [bdy] is truthy. *)
Theorem validateMessage_iff m :
  ∃ b, validateMessage m = Ok b
       ∧ (b = true ↔
          ToBoolean (field m "to") = true
          ∧ (ToBoolean (field m "from") = true
             ∨ ToBoolean (field m "frm") = true)
          ∧ (ToBoolean (field m "body") = true
             ∨ ToBoolean (field m "bdy") = true)).
Proof.
  unfold validateMessage, both_falsy. rewrite !get_ok.
  destruct (ToBoolean (field m "to")) eqn:Hto,
    (ToBoolean (field m "from")) eqn:Hfrom,
    (ToBoolean (field m "frm")) eqn:Hfrm,
    (ToBoolean (field m "body")) eqn:Hbody,
    (ToBoolean (field m "bdy")) eqn:Hbdy;
    cbn [mbind js_bind mret js_ret negb];
    rewrite ?Hto, ?Hfrom, ?Hfrm, ?Hbody, ?Hbdy;
    cbn [mbind js_bind mret js_ret negb];
    rewrite ?Hto, ?Hfrom, ?Hfrm, ?Hbody, ?Hbdy;
    cbn [mbind js_bind mret js_ret negb];
    rewrite ?Hto, ?Hfrom, ?Hfrm, ?Hbody, ?Hbdy;
    cbn [mbind js_bind mret js_ret negb];
    (eexists; split; [reflexivity|intuition congruence]).
Qed.

(** C4.  For every message [m], the long form of the short form of
    [m] holds, under each long name whose field is truthy in [m], the
    value of that field, and holds nothing else; and the short form of
    the long form of [m] holds, under each short name whose field is
    truthy in [m], the value of that field, and nothing else. *)
Theorem round_trip_keeps_truthy m :
  (∃ s l, messageToShort m = Ok s ∧ messageToLong (Plain s) = Ok l
          ∧ ∀ k, l !! k = if bool_decide (k ∈ long_fields)
                             && ToBoolean (field m k)
                          then Some (field m k) else None)
  ∧ (∃ l s, messageToLong m = Ok l ∧ messageToShort (Plain l) = Ok s
            ∧ ∀ k, s !! k = if bool_decide (k ∈ short_fields)
                               && ToBoolean (field m k)
                            then Some (field m k) else None).
Proof.
  split.
  - destruct (messageToShort_lookup m) as (s & Es & Hs).
    destruct (messageToLong_lookup (Plain s)) as (l & El & Hl).
    exists s, l. split; [exact Es|]. split; [exact El|]. intros k.
    rewrite Hl.
    destruct_name k "to" "from" "mid" "rmid" "timestamp" "version"
      "via" "for" "body"; [..|other_name];
      eval_tables; rewrite field_plain; unfold read; rewrite Hs;
      eval_tables;
      (destruct (ToBoolean (field m _)) eqn:E; cbn [default from_option id andb ToBoolean];
       rewrite ?E; reflexivity).
  - destruct (messageToLong_lookup m) as (l & El & Hl).
    destruct (messageToShort_lookup (Plain l)) as (s & Es & Hs).
    exists l, s. split; [exact El|]. split; [exact Es|]. intros k.
    rewrite Hs.
    destruct_name k "to" "frm" "mid" "rmid" "ts" "ver"
      "via" "for" "bdy"; [..|other_name];
      eval_tables; rewrite field_plain; unfold read; rewrite Hl;
      eval_tables;
      (destruct (ToBoolean (field m _)) eqn:E; cbn [default from_option id andb ToBoolean];
       rewrite ?E; reflexivity).
Qed.

(** Under a generated name, the target of a new message holds the
    value of the overrides, or the default of that name when the
    overrides have none. *)
Lemma createMessage_lookup_default g message shortFormat name :
  name ∈ generated shortFormat →
  target (createMessage g message shortFormat) !! name
  = Some (default (VString (generated_default g shortFormat name))
            (default ∅ message !! name)).
Proof.
  intros H. unfold createMessage, assign. cbn [target].
  destruct shortFormat; cbn [generated negb] in *;
    repeat (apply elem_of_cons in H as [->|H]);
    try (apply elem_of_nil in H; contradiction);
    rewrite lookup_union;
    (destruct (default ∅ message !! _) as [v|]; by simplify_map_eq).
Qed.

Lemma generated_default_nonempty g shortFormat name :
  uuid_v4 g ≠ "" → shortID g ≠ "" → toISOString g ≠ "" →
  generated_default g shortFormat name ≠ "".
Proof.
  intros Hu Hs Ht. unfold generated_default.
  destruct (decide (name = "mid")); [destruct shortFormat; assumption|].
  destruct (decide (name = _)); [assumption|discriminate].
Qed.

(** C8, as the code has it.  The message that [createMessage]
    returns has each generated field of its form ([mid], [timestamp],
    [version], or [mid], [ts], [ver]): under a name that the overrides
    supply it holds the value of the overrides, and under a name that
    they leave free it holds the generated default of that name (the
    identifier of the form, the time stamp, the version of the
    protocol), which is not empty when the generators return non-empty
    strings. *)
Theorem createMessage_generated_fields g message shortFormat name :
  uuid_v4 g ≠ "" → shortID g ≠ "" → toISOString g ≠ "" →
  name ∈ generated shortFormat →
  let m := createMessage g message shortFormat in
  (∃ v, target m !! name = Some v ∧ get m name = Ok v)
  ∧ (∀ v, default ∅ message !! name = Some v → target m !! name = Some v)
  ∧ (default ∅ message !! name = None →
     target m !! name = Some (VString (generated_default g shortFormat name))
     ∧ filled m name).
Proof.
  intros Hu Hs Ht Hname m.
  pose proof (createMessage_lookup_default g message shortFormat name Hname)
    as Hd.
  fold m in Hd.
  assert (Hget : get m name = Ok (read (target m) name))
    by exact (get_generated _ _ _ Hname).
  split; [|split].
  - eexists. split; [exact Hd|]. rewrite Hget. unfold read. rewrite Hd.
    reflexivity.
  - intros v Hv. rewrite Hd, Hv. reflexivity.
  - intros Hnone. rewrite Hnone in Hd. cbn [default from_option id] in Hd.
    split; [exact Hd|].
    exists (VString (generated_default g shortFormat name)).
    split; [exact Hd|]. split.
    + rewrite Hget. unfold read. rewrite Hd. reflexivity.
    + cbn [nonempty]. apply negb_true_iff, String.eqb_neq.
      apply generated_default_nonempty; assumption.
Qed.

Lemma createMessage_generated_fields_witness :
  let g := mkGen "7b0a" "x3f" "2016-06-01T00:00:00.000Z" in
  let o : object := {[ "to" := VString "svc:/" ]} in
  (target (createMessage g (Some o) true) !! "ts"
   = Some (VString "2016-06-01T00:00:00.000Z")
   ∧ filled (createMessage g (Some o) true) "ts")
  ∧ (target (createMessage g (Some o) false) !! "mid"
     = Some (VString "7b0a")
     ∧ filled (createMessage g (Some o) false) "mid").
Proof.
  intros g o. split.
  - refine (proj2 (proj2 (createMessage_generated_fields
              g (Some o) true "ts" _ _ _ _)) _).
    + discriminate.
    + discriminate.
    + discriminate.
    + vm_compute. right. left.
    + vm_compute. reflexivity.
  - refine (proj2 (proj2 (createMessage_generated_fields
              g (Some o) false "mid" _ _ _ _)) _).
    + discriminate.
    + discriminate.
    + discriminate.
    + vm_compute. left.
    + vm_compute. reflexivity.
Defined.

(** C8, as the claim has it, fails on the overrides [{mid: ''}]: the
    empty [mid] of the overrides replaces the generated one. *)
Lemma createMessage_empty_override :
  ¬ (∀ name, name ∈ generated false →
       filled (createMessage (mkGen "7b0a" "x3f" "2016-06-01T00:00:00.000Z")
                 (Some {[ "mid" := VString "" ]}) false) name).
Proof.
  intros H. destruct (H "mid") as (v & Hv & _ & Hne).
  - apply list_elem_of_here.
  - vm_compute in Hv. injection Hv as <-. discriminate Hne.
Qed.

(** C10.  [messageToShort] reads the long names only.  On a plain
    object whose long name of a dual-named field is absent or falsy,
    the result has nothing under the short name, whatever the object
    holds under the short name; the short form of a short form has
    none of [frm], [ts], [ver], [bdy]; and [messageToShort] is not
    idempotent. *)
Theorem messageToShort_reads_long_names :
  (∀ o long short,
     (long, short) ∈ dual_names →
     ToBoolean (read o long) = false →
     ∃ s, messageToShort (Plain o) = Ok s ∧ s !! short = None)
  ∧ (∀ m, ∃ s s',
       messageToShort m = Ok s ∧ messageToShort (Plain s) = Ok s'
       ∧ ∀ short, short ∈ dual_names.*2 → s' !! short = None)
  ∧ (∃ o s s',
       messageToShort (Plain o) = Ok s ∧ messageToShort (Plain s) = Ok s'
       ∧ s' ≠ s).
Proof.
  split; [|split].
  - intros o long short Hin Hfalsy.
    destruct (messageToShort_lookup (Plain o)) as (s & Es & Hs).
    exists s. split; [exact Es|]. rewrite Hs. unfold dual_names in Hin.
    repeat (apply elem_of_cons in Hin as [Heq|Hin];
            [injection Heq as -> ->; eval_tables;
             rewrite field_plain, Hfalsy; reflexivity|]).
    apply elem_of_nil in Hin. contradiction.
  - intros m.
    destruct (messageToShort_lookup m) as (s & Es & Hs).
    destruct (messageToShort_lookup (Plain s)) as (s' & Es' & Hs').
    exists s, s'. split; [exact Es|]. split; [exact Es'|].
    intros short Hin. rewrite Hs'. cbn in Hin.
    repeat (apply elem_of_cons in Hin as [Heq|Hin];
            [subst short; eval_tables; rewrite field_plain; unfold read;
             rewrite Hs; eval_tables; reflexivity|]).
    apply elem_of_nil in Hin. contradiction.
  - exists {[ "from" := VString "client:/" ]}.
    eexists. eexists. split; [apply messageToShort_eq|].
    split; [apply messageToShort_eq|].
    intros E. apply (f_equal (λ o : object, o !! "frm")) in E.
    vm_compute in E. discriminate E.
Qed.

Lemma messageToShort_reads_long_names_witness :
  ∃ s, messageToShort (Plain {[ "frm" := VString "client:/" ]}) = Ok s
       ∧ s !! "frm" = None.
Proof.
  refine (proj1 messageToShort_reads_long_names
            {[ "frm" := VString "client:/" ]} "from" "frm" _ _).
  - apply list_elem_of_here.
  - vm_compute. reflexivity.
Defined.

End MessageSpec.

(** ** More on the route parser *)

Module RouteMore.
Import Str StrFacts Route RouteSpec Statement.

#[local] Arguments String.append !_ _ / : simpl nomatch.

(** [indexOf] answers [-1] or an index from the start of the search
    on. *)
Lemma indexOf_from_range i s pat :
  indexOf_from i s pat = -1 ∨ i <= indexOf_from i s pat.
Proof.
  revert i. induction s as [|c s IH]; intros i; cbn [indexOf_from].
  - destruct (String.prefix pat ""); [right; lia|left; reflexivity].
  - destruct (String.prefix pat (String c s)); [right; lia|].
    destruct (IH (i + 1)) as [->|H]; [left; reflexivity|right; lia].
Qed.

(** [s.indexOf(pat) === 0] tests that [s] begins with [pat]. *)
Lemma indexOf_zero_prefix s pat : (indexOf s pat =? 0) = String.prefix pat s.
Proof.
  unfold indexOf. destruct s as [|c s]; cbn [indexOf_from].
  - destruct (String.prefix pat ""); reflexivity.
  - destruct (String.prefix pat (String c s)); [reflexivity|].
    destruct (indexOf_from_range (0 + 1) s pat) as [->|H]; [reflexivity|].
    apply Z.eqb_neq. lia.
Qed.

(** The service name of segments that do not begin with ['http']. *)
Lemma parseService_plain svc rest :
  String.prefix "http" svc = false →
  parseService (svc :: rest) = Ok (Some svc, join rest ":").
Proof.
  intros H. unfold parseService. cbn [lookup list_lookup recv mbind js_bind].
  rewrite indexOf_zero_prefix, H. reflexivity.
Qed.

(** The service name of segments that begin with ['http']: the first
    two, joined again. *)
Lemma parseService_http s0 s1 rest :
  String.prefix "http" s0 = true →
  parseService (s0 :: s1 :: rest)
  = Ok (Some (s0 +:+ ":" +:+ s1), join rest ":").
Proof.
  intros H. unfold parseService. cbn [lookup list_lookup recv mbind js_bind].
  rewrite indexOf_zero_prefix, H. reflexivity.
Qed.

(** The same without a second segment. *)
Lemma parseService_http_alone s0 :
  String.prefix "http" s0 = true →
  parseService [s0] = Ok (Some (s0 +:+ ":undefined"), "").
Proof.
  intros H. unfold parseService. cbn [lookup list_lookup recv mbind js_bind].
  rewrite indexOf_zero_prefix, H. reflexivity.
Qed.

(** [parseRoute], from the results of its first two parts. *)
Lemma parseRoute_service (toLowerCase : string → string)
    toValue inst sub url svc api0 :
  parseInstance toValue = (inst, sub, url) →
  parseService (split url ":") = Ok (svc, api0) →
  parseRoute toLowerCase toValue
  = ('(m, api, e) ← parseMethod toLowerCase api0;
     mret (mkRoute inst sub svc m api e)).
Proof.
  intros Hi Hs. unfold parseRoute, parseRemainder. rewrite Hi.
  pose proof (split_length url ":") as Hl.
  replace (length (split url ":") <? 1)%nat with false
    by (symmetry; apply Nat.ltb_ge; lia).
  rewrite Hs. cbn [mbind js_bind].
  destruct (parseMethod toLowerCase api0) as [[[m api] e]|x]; reflexivity.
Qed.

(** X1.  When the remainder of a route is a service name without [':']
    that does not begin with ['http'], a [':'] and a path, [serviceName]
    is that name and the method is looked for in the whole path, its
    further [':'] included; when the remainder is such a name alone,
    [apiRoute] is empty and there is neither method nor error. *)
Theorem parseRoute_service_and_path (toLowerCase : string → string)
    toValue inst sub svc :
  has ":" svc = false →
  String.prefix "http" svc = false →
  (∀ path,
     parseInstance toValue = (inst, sub, svc +:+ String ":" path) →
     parseRoute toLowerCase toValue
     = ('(m, api, e) ← parseMethod toLowerCase path;
        mret (mkRoute inst sub (Some svc) m api e)))
  ∧ (parseInstance toValue = (inst, sub, svc) →
     parseRoute toLowerCase toValue
     = Ok (mkRoute inst sub (Some svc) None "" None)).
Proof.
  intros Hc Hh. split.
  - intros path Hi. apply (parseRoute_service _ _ _ _ _ _ _ Hi).
    rewrite split_app by exact Hc. rewrite parseService_plain by exact Hh.
    rewrite join_split. reflexivity.
  - intros Hi.
    rewrite (parseRoute_service _ _ _ _ _ (Some svc) "" Hi); [reflexivity|].
    rewrite split_token by exact Hc. apply parseService_plain, Hh.
Qed.

Lemma parseRoute_service_and_path_witness :
  parseRoute toLowerCase_ascii "a@svc:/x:y"
  = Ok (mkRoute (Some "a") None (Some "svc") None "/x:y" None)
  ∧ parseRoute toLowerCase_ascii "svc"
    = Ok (mkRoute (Some "") (Some "") (Some "svc") None "" None).
Proof.
  split.
  - exact (proj1 (parseRoute_service_and_path toLowerCase_ascii
             "a@svc:/x:y" (Some "a") None "svc" eq_refl eq_refl)
             "/x:y" eq_refl).
  - exact (proj2 (parseRoute_service_and_path toLowerCase_ascii
             "svc" (Some "") (Some "") "svc" eq_refl eq_refl) eq_refl).
Defined.

(** X2.  When the first segment of the remainder begins with ['http'],
    [serviceName] is the first two segments with the [':'] between
    them, and the path is what follows the second [':']; with two
    segments only the path is empty. *)
Theorem parseRoute_http_service (toLowerCase : string → string)
    toValue inst sub s0 s1 :
  has ":" s0 = false → has ":" s1 = false →
  String.prefix "http" s0 = true →
  (∀ path,
     parseInstance toValue
     = (inst, sub, s0 +:+ String ":" (s1 +:+ String ":" path)) →
     parseRoute toLowerCase toValue
     = ('(m, api, e) ← parseMethod toLowerCase path;
        mret (mkRoute inst sub (Some (s0 +:+ ":" +:+ s1)) m api e)))
  ∧ (parseInstance toValue = (inst, sub, s0 +:+ String ":" s1) →
     parseRoute toLowerCase toValue
     = Ok (mkRoute inst sub (Some (s0 +:+ ":" +:+ s1)) None "" None)).
Proof.
  intros H0 H1 Hh. split.
  - intros path Hi. apply (parseRoute_service _ _ _ _ _ _ _ Hi).
    rewrite split_app by exact H0. rewrite split_app by exact H1.
    rewrite parseService_http by exact Hh. rewrite join_split. reflexivity.
  - intros Hi.
    rewrite (parseRoute_service _ _ _ _ _ (Some (s0 +:+ ":" +:+ s1)) "" Hi);
      [reflexivity|].
    rewrite split_app by exact H0. rewrite split_token by exact H1.
    apply parseService_http, Hh.
Qed.

Lemma parseRoute_http_service_witness :
  parseRoute toLowerCase_ascii "https://host:[get]/v1"
  = Ok (mkRoute (Some "") (Some "") (Some "https://host") (Some "get")
          "/v1" None)
  ∧ parseRoute toLowerCase_ascii "http://host/v1"
    = Ok (mkRoute (Some "") (Some "") (Some "http://host/v1") None "" None).
Proof.
  split.
  - exact (proj1 (parseRoute_http_service toLowerCase_ascii
             "https://host:[get]/v1" (Some "") (Some "") "https" "//host"
             eq_refl eq_refl eq_refl) "[get]/v1" eq_refl).
  - exact (proj2 (parseRoute_http_service toLowerCase_ascii
             "http://host/v1" (Some "") (Some "") "http" "//host/v1"
             eq_refl eq_refl eq_refl) eq_refl).
Defined.

(** X3.  When the remainder begins with ['http'] and has no [':'],
    [serviceName] is the remainder followed by [':undefined']. *)
Theorem parseRoute_http_without_colon (toLowerCase : string → string)
    toValue inst sub s0 :
  has ":" s0 = false →
  String.prefix "http" s0 = true →
  parseInstance toValue = (inst, sub, s0) →
  parseRoute toLowerCase toValue
  = Ok (mkRoute inst sub (Some (s0 +:+ ":undefined")) None "" None).
Proof.
  intros H0 Hh Hi.
  rewrite (parseRoute_service _ _ _ _ _ (Some (s0 +:+ ":undefined")) "" Hi);
    [reflexivity|].
  rewrite split_token by exact H0. apply parseService_http_alone, Hh.
Qed.

Lemma parseRoute_http_without_colon_witness :
  parseRoute toLowerCase_ascii "a@httpd"
  = Ok (mkRoute (Some "a") None (Some "httpd:undefined") None "" None).
Proof.
  exact (parseRoute_http_without_colon toLowerCase_ascii
           "a@httpd" (Some "a") None "httpd" eq_refl eq_refl eq_refl).
Defined.

(** X4.  [parseRoute] sets [error] exactly when the path found after the
    service name begins with ['['] and holds no [']']; with an error,
    [httpMethod] is [undefined] and [apiRoute] is that path, brackets
    included. *)
Theorem parseRoute_error_iff (toLowerCase : string → string) toValue :
  ∃ inst sub url svc api0 r,
    parseInstance toValue = (inst, sub, url)
    ∧ parseService (split url ":") = Ok (svc, api0)
    ∧ parseRoute toLowerCase toValue = Ok r
    ∧ (error r ≠ None ↔ ∃ rest, api0 = String "[" rest ∧ has "]" rest = false)
    ∧ (error r ≠ None →
       error r = Some err_verb ∧ httpMethod r = None ∧ apiRoute r = api0).
Proof.
  destruct (parseInstance toValue) as [[inst sub] url] eqn:Hi.
  destruct (parseService_ok url) as (svc & api0 & Hs).
  exists inst, sub, url, svc, api0.
  destruct (String.prefix "[" api0) eqn:Hp.
  - destruct api0 as [|c rest]; [discriminate|].
    rewrite prefix_char in Hp. apply Ascii.eqb_eq in Hp. subst c.
    destruct (has "]" rest) eqn:Hr.
    + destruct (has_split _ _ Hr) as (m & tail & -> & Hm).
      eexists. split; [reflexivity|]. split; [exact Hs|]. split.
      { eapply parseRoute_parts; [exact Hi|exact Hs|].
        apply parseMethod_bracketed, Hm. }
      cbn [error]. split; [split|]; [congruence| |congruence].
      intros (rest' & E & Hrest'). injection E as <-. congruence.
    + eexists. split; [reflexivity|]. split; [exact Hs|]. split.
      { eapply parseRoute_parts; [exact Hi|exact Hs|].
        apply parseMethod_unterminated, Hr. }
      cbn [error httpMethod apiRoute]. split; [split|]; eauto.
  - eexists. split; [reflexivity|]. split; [exact Hs|]. split.
    { eapply parseRoute_parts; [exact Hi|exact Hs|].
      apply parseMethod_plain, Hp. }
    cbn [error]. split; [split|]; [congruence| |congruence].
    intros (rest & -> & _). rewrite prefix_char in Hp. discriminate Hp.
Qed.

(** X5.  On every route, the [instance] that [parseRoute] returns is a
    string without ['-'] and without ['@'], and so is [subID] when it is
    not [undefined]. *)
Theorem parseRoute_instance_is_token (toLowerCase : string → string) toValue :
  ∃ r i, parseRoute toLowerCase toValue = Ok r
         ∧ instance r = Some i ∧ token i
         ∧ match subID r with Some s => token s | None => True end.
Proof.
  unfold parseRoute. destruct (has "@" toValue) eqn:Hat.
  - destruct (has_split _ _ Hat) as (before & after & -> & Hb).
    rewrite parseInstance_at by exact Hb.
    pose proof (split_free before "-") as H1.
    pose proof (split_absent "@" before "-" Hb) as H2.
    destruct (split_cons before "-") as (tok & toks & E). rewrite E in *.
    destruct (parseRemainder_ok toLowerCase after)
      as (svc & m & api & e & -> & _).
    eexists. exists tok. split; [reflexivity|].
    inversion H1 as [|? ? Ht1 Hts1]; subst.
    inversion H2 as [|? ? Ht2 Hts2]; subst.
    split; [reflexivity|]. split; [split; assumption|].
    cbn [subID lookup list_lookup]. destruct toks as [|s toks]; [exact I|].
    inversion Hts1; inversion Hts2; subst. split; assumption.
  - rewrite parseInstance_no_at by exact Hat.
    destruct (parseRemainder_ok toLowerCase toValue)
      as (svc & m & api & e & -> & _).
    eexists. exists "". split; [reflexivity|].
    cbn. repeat split; reflexivity.
Qed.

(** X6.  A route put together as [inst-sub@svc:[method]path] parses back
    into its parts, with the method lower-cased: [inst] and [sub] being
    free of ['-'] and ['@'], [svc] free of [':'] and not beginning with
    ['http'], and [method] non-empty, free of [']'] and of a length that
    lower-casing keeps. *)
Theorem parseRoute_assembled (toLowerCase : string → string)
    inst sub svc method path :
  token inst → token sub →
  has ":" svc = false → String.prefix "http" svc = false →
  has "]" method = false → method ≠ "" →
  len (toLowerCase method) = len method →
  parseRoute toLowerCase
    (inst +:+ "-" +:+ sub +:+ "@" +:+ svc +:+ ":[" +:+ method +:+ "]" +:+ path)
  = Ok (mkRoute (Some inst) (Some sub) (Some svc)
          (Some (toLowerCase method)) path None).
Proof.
  intros [Hi1 Hi2] [Hs1 Hs2] Hc Hh Hm Hne Hlen.
  assert (Hi : parseInstance
            (inst +:+ "-" +:+ sub +:+ "@" +:+ svc +:+ ":[" +:+ method
               +:+ "]" +:+ path)
          = (Some inst, Some sub,
             svc +:+ String ":" (String "[" (method +:+ String "]" path)))).
  { replace (inst +:+ "-" +:+ sub +:+ "@" +:+ svc +:+ ":[" +:+ method
               +:+ "]" +:+ path)
      with ((inst +:+ String "-" sub)
              +:+ String "@" (svc +:+ String ":"
                    (String "[" (method +:+ String "]" path))))
      by (rewrite !append_assoc; reflexivity).
    rewrite parseInstance_at
      by (rewrite has_app; cbn [has]; rewrite Hi2, Hs2; reflexivity).
    rewrite split_app by exact Hi1. rewrite split_token by exact Hs1.
    reflexivity. }
  rewrite (parseRoute_service _ _ _ _ _ (Some svc)
             (String "[" (method +:+ String "]" path)) Hi).
  - rewrite parseMethod_bracketed by exact Hm. cbn [mbind js_bind].
    rewrite strip_method by exact Hlen. rewrite Hlen.
    destruct method as [|c method]; [congruence|].
    rewrite len_cons. pose proof (len_nonneg method).
    replace (0 <? 1 + len method) with true
      by (symmetry; apply Z.ltb_lt; lia).
    reflexivity.
  - rewrite split_app by exact Hc. rewrite parseService_plain by exact Hh.
    rewrite join_split. reflexivity.
Qed.

Lemma parseRoute_assembled_witness :
  parseRoute toLowerCase_ascii "i1-s2@svc:[Post]/v1/x:y"
  = Ok (mkRoute (Some "i1") (Some "s2") (Some "svc") (Some "post")
          "/v1/x:y" None).
Proof.
  refine (parseRoute_assembled toLowerCase_ascii "i1" "s2" "svc" "Post"
            "/v1/x:y" _ _ eq_refl eq_refl eq_refl _ eq_refl).
  - split; reflexivity.
  - split; reflexivity.
  - discriminate.
Defined.

End RouteMore.

(** ** More on message envelopes *)

Module MessageMore.
Import Message MessageStatement MessageSpec ExtraStatement.

(** Membership of a closed name in a closed list. *)
Ltac closed_notin := apply (bool_decide_unpack _); vm_compute; exact I.
Ltac closed_in := apply (bool_decide_unpack _); vm_compute; exact I.

(** Under a name that is not generated, the target of a new message
    holds what the overrides hold. *)
Lemma createMessage_lookup_other g message shortFormat k :
  k ∉ generated shortFormat →
  target (createMessage g message shortFormat) !! k = default ∅ message !! k.
Proof.
  intros H. unfold createMessage, assign. cbn [target].
  destruct shortFormat; cbn [generated negb] in *;
    rewrite !not_elem_of_cons in H; destruct H as (? & ? & ? & _);
    rewrite lookup_union;
    rewrite !lookup_insert_ne, lookup_empty by congruence;
    destruct (default ∅ message !! k); reflexivity.
Qed.

Lemma read_createMessage_other g message shortFormat k :
  k ∉ generated shortFormat →
  read (target (createMessage g message shortFormat)) k
  = read (default ∅ message) k.
Proof.
  intros H. unfold read. rewrite createMessage_lookup_other by exact H.
  reflexivity.
Qed.

(** What [validateMessage] returns, from the five fields it reads. *)
Lemma validateMessage_eq m :
  validateMessage m
  = Ok (ToBoolean (field m "to")
        && (ToBoolean (field m "from") || ToBoolean (field m "frm"))
        && (ToBoolean (field m "body") || ToBoolean (field m "bdy"))).
Proof.
  unfold validateMessage, both_falsy. rewrite !get_ok.
  cbn [mbind js_bind mret js_ret].
  destruct (ToBoolean (field m "from")); cbn [negb mbind js_bind mret js_ret];
    destruct (ToBoolean (field m "frm")); cbn [negb mbind js_bind mret js_ret];
    destruct (ToBoolean (field m "to")); cbn [negb mbind js_bind mret js_ret];
    destruct (ToBoolean (field m "body"));
    cbn [negb mbind js_bind mret js_ret];
    destruct (ToBoolean (field m "bdy")); reflexivity.
Qed.

(** The five fields that [validateMessage] reads, through a proxy. *)
Lemma field_proxy_validated t shortFormat :
  field (Proxy t shortFormat) "to" = read t "to"
  ∧ field (Proxy t shortFormat) "from"
    = read t (if shortFormat then "frm" else "from")
  ∧ field (Proxy t shortFormat) "frm"
    = read t (if shortFormat then "frm" else "from")
  ∧ field (Proxy t shortFormat) "body"
    = read t (if shortFormat then "bdy" else "body")
  ∧ field (Proxy t shortFormat) "bdy"
    = read t (if shortFormat then "bdy" else "body").
Proof.
  unfold field. cbn [get]. unfold proxy_get.
  destruct shortFormat; eval_tables; repeat split; reflexivity.
Qed.

(** A closed object has no property with a name of
    [Object.prototype]. *)
Ltac closed_ordinary :=
  let k := fresh "k" in
  let Hk := fresh "Hk" in
  intros k Hk; unfold Projection.Object_prototype_names in Hk;
  repeat (apply elem_of_cons in Hk as [->|Hk]; [vm_compute; reflexivity|]);
  apply elem_of_nil in Hk; contradiction.

(** X7.  For overrides without a property named as a member of
    [Object.prototype], the message that [createMessage] returns has the
    properties of the overrides and the three generated fields of its
    form, and no other; under each name it holds the value of the
    overrides, or else the default of a generated name (the identifier
    of the form, the time stamp, the version of the protocol). *)
Theorem createMessage_properties g message shortFormat :
  ordinary (default ∅ message) →
  let o := default ∅ message in
  let m := createMessage g message shortFormat in
  dom (target m) = dom o ∪ list_to_set (generated shortFormat)
  ∧ ∀ k, target m !! k
         = match o !! k with
           | Some v => Some v
           | None => if bool_decide (k ∈ generated shortFormat)
                     then Some (VString (generated_default g shortFormat k))
                     else None
           end.
Proof.
  intros _ o m. split.
  - subst m o. unfold createMessage, assign. cbn [target].
    destruct shortFormat; cbn [negb generated list_to_set];
      rewrite dom_union_L, !dom_insert_L, dom_empty_L; set_solver.
  - intros k. subst m o.
    destruct (decide (k ∈ generated shortFormat)) as [Hin|Hout].
    + rewrite (bool_decide_eq_true_2 _ Hin).
      rewrite createMessage_lookup_default by exact Hin.
      destruct (default ∅ message !! k); reflexivity.
    + rewrite (bool_decide_eq_false_2 _ Hout).
      rewrite createMessage_lookup_other by exact Hout.
      destruct (default ∅ message !! k); reflexivity.
Qed.

Lemma createMessage_properties_witness :
  let g := mkGen "7b0a" "x3f" "2016-06-01T00:00:00.000Z" in
  let o : object := <["to" := VString "svc:/"]>
                      (<["mid" := VString "m1"]> ∅) in
  let m := createMessage g (Some o) true in
  ordinary o
  ∧ dom (target m) = dom o ∪ list_to_set (generated true)
  ∧ ∀ k, target m !! k
         = match o !! k with
           | Some v => Some v
           | None => if bool_decide (k ∈ generated true)
                     then Some (VString (generated_default g true k))
                     else None
           end.
Proof.
  intros g o m.
  assert (Ho : ordinary o) by (subst o; closed_ordinary).
  split; [exact Ho|]. exact (createMessage_properties g (Some o) true Ho).
Defined.

(** X8.  Through the proxy that [createMessage] returns, a field with
    two names reads the same by either name: the value that the target
    holds under the name of the form of the message.  What the target
    holds under the name of the other form is not read.  The fields with
    one name read as the target has them. *)
Theorem createMessage_read_either_name g message shortFormat :
  let m := createMessage g message shortFormat in
  (∀ long short,
     (long, short) ∈ dual_names →
     get m long = Ok (read (target m) (if shortFormat then short else long))
     ∧ get m short = Ok (read (target m) (if shortFormat then short else long)))
  ∧ (∀ name,
       name ∈ ["to"; "mid"; "rmid"; "via"; "for"] →
       get m name = Ok (read (target m) name)).
Proof.
  intros m. subst m. unfold createMessage. cbn [target get].
  generalize (if negb shortFormat
              then assign (<["mid":=VString (uuid_v4 g)]>
                             (<["timestamp":=VString (toISOString g)]>
                                (<["version":=VString UMF_VERSION]> ∅)))
                     (default ∅ message)
              else assign (<["mid":=VString (shortID g)]>
                             (<["ts":=VString (toISOString g)]>
                                (<["ver":=VString UMF_VERSION]> ∅)))
                     (default ∅ message)).
  intros t. unfold proxy_get. split.
  - intros long short H. unfold dual_names in H.
    repeat (apply elem_of_cons in H as [Heq|H];
            [injection Heq as -> ->; destruct shortFormat; eval_tables;
             split; reflexivity|]).
    apply elem_of_nil in H. contradiction.
  - intros name H.
    repeat (apply elem_of_cons in H as [->|H];
            [destruct shortFormat; eval_tables; reflexivity|]).
    apply elem_of_nil in H. contradiction.
Qed.

(** X9.  For overrides without a property named as a member of
    [Object.prototype], [validateMessage] accepts the message that
    [createMessage] returns exactly when the overrides hold truthy
    values under [to] and under the names of the form of the message
    for origin and payload: [from] and [body] for the long form, [frm]
    and [bdy] for the short form.  The names of the other form do not
    count. *)
Theorem validateMessage_createMessage g message shortFormat :
  ordinary (default ∅ message) →
  let o := default ∅ message in
  validateMessage (createMessage g message shortFormat)
  = Ok (ToBoolean (read o "to")
        && ToBoolean (read o (if shortFormat then "frm" else "from"))
        && ToBoolean (read o (if shortFormat then "bdy" else "body"))).
Proof.
  intros _ o. rewrite validateMessage_eq.
  change (createMessage g message shortFormat)
    with (Proxy (target (createMessage g message shortFormat)) shortFormat).
  destruct (field_proxy_validated
              (target (createMessage g message shortFormat)) shortFormat)
    as (-> & -> & -> & -> & ->).
  rewrite !orb_diag.
  destruct shortFormat;
    rewrite !read_createMessage_other by closed_notin; reflexivity.
Qed.

Lemma validateMessage_createMessage_witness :
  let g := mkGen "7b0a" "x3f" "2016-06-01T00:00:00.000Z" in
  let valid : object := <["to" := VString "svc:/"]>
                          (<["from" := VString "client:/"]>
                             (<["body" := VObject 0]> ∅)) in
  let other : object := <["to" := VString "svc:/"]>
                          (<["frm" := VString "client:/"]>
                             (<["bdy" := VObject 0]> ∅)) in
  validateMessage (createMessage g (Some valid) false) = Ok true
  ∧ validateMessage (createMessage g (Some other) false) = Ok false
  ∧ validateMessage (createMessage g (Some other) true) = Ok true.
Proof.
  intros g valid other.
  assert (Hv : ordinary valid) by (subst valid; closed_ordinary).
  assert (Ho : ordinary other) by (subst other; closed_ordinary).
  split; [exact (validateMessage_createMessage g (Some valid) false Hv)|].
  split; [exact (validateMessage_createMessage g (Some other) false Ho)|].
  exact (validateMessage_createMessage g (Some other) true Ho).
Defined.

(** The truthiness of what a guarded copy wrote. *)
Lemma truthy_guarded v :
  ToBoolean (default VUndefined (if ToBoolean v then Some v else None))
  = ToBoolean v.
Proof. destruct (ToBoolean v) eqn:E; [exact E|reflexivity]. Qed.

(** X10.  The object that [messageToShort] returns has short names of
    semantic fields only, each with a truthy value; the object that
    [messageToLong] returns has long names only, each with a truthy
    value.  Every other property of the message is left out. *)
Theorem conversions_keep_semantic_truthy m :
  ∃ s l, messageToShort m = Ok s ∧ messageToLong m = Ok l
         ∧ short_form s ∧ long_form l.
Proof.
  destruct (messageToShort_lookup m) as (s & Es & Hs).
  destruct (messageToLong_lookup m) as (l & El & Hl).
  exists s, l. split; [exact Es|]. split; [exact El|]. split.
  - intros k v H. rewrite Hs in H.
    destruct (src_of short_pairs k) as [src|] eqn:Hsrc; [|discriminate].
    destruct (ToBoolean (field m src)) eqn:E; [|discriminate].
    injection H as <-. split; [|exact E].
    exact (src_of_Some _ _ _ Hsrc).
  - intros k v H. rewrite Hl in H.
    destruct (src_of long_pairs k) as [src|] eqn:Hsrc; [|discriminate].
    destruct (ToBoolean (field m src)) eqn:E; [|discriminate].
    injection H as <-. split; [|exact E].
    exact (src_of_Some _ _ _ Hsrc).
Qed.

(** X11.  A proxied message converts to its own form without loss:
    [messageToShort] of a short-form proxy holds, under each short name
    whose field is truthy in the target, the value of the target, and
    nothing else; and so does [messageToLong] of a long-form proxy under
    the long names. *)
Theorem conversion_to_own_form t :
  (∃ s, messageToShort (Proxy t true) = Ok s
        ∧ ∀ k, s !! k = if bool_decide (k ∈ short_fields)
                           && ToBoolean (read t k)
                        then Some (read t k) else None)
  ∧ (∃ l, messageToLong (Proxy t false) = Ok l
          ∧ ∀ k, l !! k = if bool_decide (k ∈ long_fields)
                             && ToBoolean (read t k)
                          then Some (read t k) else None).
Proof.
  split.
  - destruct (messageToShort_lookup (Proxy t true)) as (s & Es & Hs).
    exists s. split; [exact Es|]. intros k. rewrite Hs.
    destruct_name k "to" "frm" "mid" "rmid" "ts" "ver" "via" "for" "bdy";
      [..|other_name];
      eval_tables; unfold field; cbn [get]; unfold proxy_get; eval_tables;
      reflexivity.
  - destruct (messageToLong_lookup (Proxy t false)) as (l & El & Hl).
    exists l. split; [exact El|]. intros k. rewrite Hl.
    destruct_name k "to" "from" "mid" "rmid" "timestamp" "version"
      "via" "for" "body"; [..|other_name];
      eval_tables; unfold field; cbn [get]; unfold proxy_get; eval_tables;
      reflexivity.
Qed.

(** The long form of the short form, and the short form of the long
    form, name by name. *)
Lemma round_trip_lookup m :
  (∃ s l, messageToShort m = Ok s ∧ messageToLong (Plain s) = Ok l
          ∧ ∀ k, l !! k = if bool_decide (k ∈ long_fields)
                             && ToBoolean (field m k)
                          then Some (field m k) else None)
  ∧ (∃ l s, messageToLong m = Ok l ∧ messageToShort (Plain l) = Ok s
            ∧ ∀ k, s !! k = if bool_decide (k ∈ short_fields)
                               && ToBoolean (field m k)
                            then Some (field m k) else None).
Proof.
  split.
  - destruct (messageToShort_lookup m) as (s & Es & Hs).
    destruct (messageToLong_lookup (Plain s)) as (l & El & Hl).
    exists s, l. split; [exact Es|]. split; [exact El|]. intros k.
    rewrite Hl.
    destruct_name k "to" "from" "mid" "rmid" "timestamp" "version"
      "via" "for" "body"; [..|other_name];
      eval_tables; rewrite field_plain; unfold read; rewrite Hs;
      eval_tables; rewrite truthy_guarded;
      (destruct (ToBoolean (field m _)); reflexivity).
  - destruct (messageToLong_lookup m) as (l & El & Hl).
    destruct (messageToShort_lookup (Plain l)) as (s & Es & Hs).
    exists l, s. split; [exact El|]. split; [exact Es|]. intros k.
    rewrite Hs.
    destruct_name k "to" "frm" "mid" "rmid" "ts" "ver"
      "via" "for" "bdy"; [..|other_name];
      eval_tables; rewrite field_plain; unfold read; rewrite Hl;
      eval_tables; rewrite truthy_guarded;
      (destruct (ToBoolean (field m _)); reflexivity).
Qed.

(** X12.  On a plain object that holds semantic fields only, under
    their long names and with truthy values, [messageToLong] undoes
    [messageToShort]; on one that holds them under their short names,
    [messageToShort] undoes [messageToLong]. *)
Theorem round_trip_identity o :
  (long_form o →
   ∃ s, messageToShort (Plain o) = Ok s ∧ messageToLong (Plain s) = Ok o)
  ∧ (short_form o →
     ∃ l, messageToLong (Plain o) = Ok l ∧ messageToShort (Plain l) = Ok o).
Proof.
  split; intros Ho.
  - destruct (proj1 (round_trip_lookup (Plain o))) as (s & l & Es & El & Hl).
    exists s. split; [exact Es|]. rewrite El. f_equal. apply map_eq. intros k.
    rewrite Hl, field_plain. unfold read.
    destruct (o !! k) as [v|] eqn:Hk; cbn [default from_option id].
    + destruct (Ho k v Hk) as [Hin Hv].
      rewrite (bool_decide_eq_true_2 _ Hin), Hv. reflexivity.
    + rewrite andb_false_r. reflexivity.
  - destruct (proj2 (round_trip_lookup (Plain o))) as (l & s & El & Es & Hs).
    exists l. split; [exact El|]. rewrite Es. f_equal. apply map_eq. intros k.
    rewrite Hs, field_plain. unfold read.
    destruct (o !! k) as [v|] eqn:Hk; cbn [default from_option id].
    + destruct (Ho k v Hk) as [Hin Hv].
      rewrite (bool_decide_eq_true_2 _ Hin), Hv. reflexivity.
    + rewrite andb_false_r. reflexivity.
Qed.

Lemma round_trip_identity_witness :
  let o : object := <["to" := VString "svc:/"]>
                      (<["from" := VString "client:/"]>
                         (<["body" := VObject 0]> ∅)) in
  long_form o
  ∧ ∃ s, messageToShort (Plain o) = Ok s ∧ messageToLong (Plain s) = Ok o.
Proof.
  intros o.
  assert (Ho : long_form o).
  { intros k v H. subst o.
    destruct (decide (k = "to")) as [->|?].
    { rewrite lookup_insert_eq in H. injection H as <-.
      split; [closed_in|reflexivity]. }
    rewrite lookup_insert_ne in H by congruence.
    destruct (decide (k = "from")) as [->|?].
    { rewrite lookup_insert_eq in H. injection H as <-.
      split; [closed_in|reflexivity]. }
    rewrite lookup_insert_ne in H by congruence.
    destruct (decide (k = "body")) as [->|?].
    { rewrite lookup_insert_eq in H. injection H as <-.
      split; [closed_in|reflexivity]. }
    rewrite lookup_insert_ne in H by congruence.
    rewrite lookup_empty in H. discriminate H. }
  split; [exact Ho|]. exact (proj1 (round_trip_identity o) Ho).
Defined.

(** X13.  Converting the message that [createMessage] returns, to the
    short form or to the long form, keeps what [validateMessage]
    answers. *)
Theorem conversion_keeps_validity g message shortFormat :
  let m := createMessage g message shortFormat in
  ∃ s l, messageToShort m = Ok s ∧ messageToLong m = Ok l
         ∧ validateMessage (Plain s) = validateMessage m
         ∧ validateMessage (Plain l) = validateMessage m.
Proof.
  intros m.
  destruct (messageToShort_lookup m) as (s & Es & Hs).
  destruct (messageToLong_lookup m) as (l & El & Hl).
  exists s, l. split; [exact Es|]. split; [exact El|].
  rewrite !validateMessage_eq, !field_plain. unfold read.
  rewrite !Hs, !Hl. eval_tables. rewrite !truthy_guarded.
  cbn [default from_option id ToBoolean orb].
  subst m.
  change (createMessage g message shortFormat)
    with (Proxy (target (createMessage g message shortFormat)) shortFormat).
  destruct (field_proxy_validated
              (target (createMessage g message shortFormat)) shortFormat)
    as (-> & -> & -> & -> & ->).
  rewrite !orb_diag, !orb_false_r. split; reflexivity.
Qed.

End MessageMore.

(** ** Projections of a message *)

Module ProjectionSpec.
Import Message MessageStatement MessageSpec ExtraStatement Projection.
Import MessageMore.

(** The loop of [messageToObject] returns, and what it leaves under a
    name does not depend on the order of the names. *)
Lemma copy_keys_lookup m names :
  ∀ ret, ∃ r,
    copy_keys m names ret = Ok r
    ∧ ∀ k, r !! k = if bool_decide (k ∈ names) then Some (field m k)
                    else ret !! k.
Proof.
  induction names as [|a names IH]; intros ret.
  - exists ret. split; [reflexivity|]. intros k.
    rewrite bool_decide_eq_false_2 by apply not_elem_of_nil. reflexivity.
  - cbn [copy_keys]. rewrite get_ok. cbn [mbind js_bind].
    destruct (IH (<[a := field m a]> ret)) as (r & -> & Hr).
    exists r. split; [reflexivity|]. intros k. rewrite Hr.
    destruct (decide (k = a)) as [->|Hne].
    + rewrite (bool_decide_eq_true_2 (a ∈ a :: names))
        by apply list_elem_of_here.
      rewrite lookup_insert_eq. destruct (bool_decide (a ∈ names)); reflexivity.
    + rewrite lookup_insert_ne by congruence.
      destruct (decide (k ∈ names)) as [Hin|Hout].
      * rewrite (bool_decide_eq_true_2 _ Hin).
        rewrite (bool_decide_eq_true_2 (k ∈ a :: names))
          by (apply list_elem_of_further, Hin).
        reflexivity.
      * rewrite (bool_decide_eq_false_2 _ Hout).
        rewrite (bool_decide_eq_false_2 (k ∈ a :: names))
          by (rewrite not_elem_of_cons; split; assumption).
        reflexivity.
Qed.

Lemma elem_of_keys m k : k ∈ keys m ↔ is_Some (target m !! k).
Proof.
  assert (H : ∀ o : object, k ∈ (map_to_list o).*1 ↔ is_Some (o !! k)).
  { intros o. rewrite list_elem_of_fmap. split.
    - intros ([k' v] & -> & Hin). apply elem_of_map_to_list in Hin. eauto.
    - intros [v Hv]. exists (k, v). split; [reflexivity|].
      apply elem_of_map_to_list, Hv. }
  destruct m; apply H.
Qed.

(** What [messageToObject] returns, name by name: under each name of the
    target, the value that reading the message by that name gives. *)
Lemma messageToObject_lookup m :
  ∃ r, messageToObject m = Ok r
       ∧ ∀ k, r !! k = (λ _, field m k) <$> target m !! k.
Proof.
  unfold messageToObject.
  destruct (copy_keys_lookup m (keys m) ∅) as (r & E & Hr).
  exists r. split; [exact E|]. intros k. rewrite Hr, lookup_empty.
  destruct (target m !! k) as [v|] eqn:Hk.
  - rewrite bool_decide_eq_true_2 by (apply elem_of_keys; eauto). reflexivity.
  - rewrite bool_decide_eq_false_2; [reflexivity|].
    rewrite elem_of_keys, Hk. intros [? ?]. discriminate.
Qed.

(** The names that a trap of the proxy redirects. *)
Lemma in_table_other_form (shortFormat : bool) k :
  in_table k (if shortFormat then longToShort else shortToLong)
  = bool_decide (k ∈ other_form shortFormat).
Proof.
  destruct shortFormat; cbn [other_form].
  - is_name k "from"; [reflexivity|]. is_name k "timestamp"; [reflexivity|].
    is_name k "version"; [reflexivity|]. is_name k "body"; [reflexivity|].
    rewrite (bool_decide_eq_false_2 (k ∈ dual_names.*1))
      by (cbn; rewrite !elem_of_cons, elem_of_nil; tauto).
    unfold in_table, longToShort. cbn [list_to_map foldr fst snd].
    rewrite !lookup_insert_ne, lookup_empty by congruence. reflexivity.
  - is_name k "frm"; [reflexivity|]. is_name k "ts"; [reflexivity|].
    is_name k "ver"; [reflexivity|]. is_name k "bdy"; [reflexivity|].
    rewrite (bool_decide_eq_false_2 (k ∈ dual_names.*2))
      by (cbn; rewrite !elem_of_cons, elem_of_nil; tauto).
    unfold in_table, shortToLong. cbn [list_to_map foldr fst snd].
    rewrite !lookup_insert_ne, lookup_empty by congruence. reflexivity.
Qed.

(** A name that is not of the other form reads as the target has it. *)
Lemma field_own_form t shortFormat k :
  k ∉ other_form shortFormat → field (Proxy t shortFormat) k = read t k.
Proof.
  intros H. unfold field. cbn [get]. unfold proxy_get.
  pose proof (in_table_other_form shortFormat k) as E.
  rewrite (bool_decide_eq_false_2 _ H) in E.
  destruct shortFormat; rewrite E; reflexivity.
Qed.

(** X14.  [messageToObject] returns an object equal to a plain object it
    is given; and it returns an object equal to the target of the
    message that [createMessage] returns, when the overrides have no
    property under a name of the other form.  (No property has a name
    of [Object.prototype].) *)
Theorem messageToObject_copies :
  (∀ o, ordinary o → messageToObject (Plain o) = Ok o)
  ∧ (∀ g message shortFormat,
       ordinary (default ∅ message) →
       (∀ k, k ∈ other_form shortFormat → default ∅ message !! k = None) →
       messageToObject (createMessage g message shortFormat)
       = Ok (target (createMessage g message shortFormat))).
Proof.
  split.
  - intros o _. destruct (messageToObject_lookup (Plain o)) as (r & -> & Hr).
    f_equal. apply map_eq. intros k. rewrite Hr, field_plain. cbn [target].
    unfold read. destruct (o !! k); reflexivity.
  - intros g message shortFormat _ Hother.
    destruct (messageToObject_lookup (createMessage g message shortFormat))
      as (r & -> & Hr).
    f_equal. apply map_eq. intros k. rewrite Hr.
    destruct (target (createMessage g message shortFormat) !! k)
      as [v|] eqn:Hk; [|reflexivity].
    cbn [fmap option_fmap option_map]. f_equal.
    change (createMessage g message shortFormat)
      with (Proxy (target (createMessage g message shortFormat)) shortFormat).
    rewrite field_own_form; [unfold read; rewrite Hk; reflexivity|].
    intros Hin. specialize (Hother k Hin).
    rewrite createMessage_lookup_other, Hother in Hk; [discriminate|].
    clear Hk Hother. destruct shortFormat; cbn in Hin;
      repeat (apply elem_of_cons in Hin as [->|Hin]; [closed_notin|]);
      apply elem_of_nil in Hin; contradiction.
Qed.

Lemma messageToObject_copies_witness :
  let o : object := {[ "to" := VString "svc:/" ]} in
  let g := mkGen "7b0a" "x3f" "2016-06-01T00:00:00.000Z" in
  messageToObject (Plain o) = Ok o
  ∧ messageToObject (createMessage g (Some o) false)
    = Ok (target (createMessage g (Some o) false)).
Proof.
  intros o g.
  assert (Ho : ordinary o).
  { intros k Hk. subst o. apply lookup_singleton_ne. intros <-. revert Hk.
    change ("to" ∉ Object_prototype_names). closed_notin. }
  split; [exact (proj1 messageToObject_copies o Ho)|].
  refine (proj2 messageToObject_copies g (Some o) false Ho _).
  intros k Hk. subst o. apply lookup_singleton_ne. intros <-. revert Hk.
  change ("to" ∉ other_form false). closed_notin.
Defined.

(** X15.  When the overrides hold a property under a name of the other
    form, the object that [messageToObject] returns for the message of
    [createMessage] has that name, but with the value that the target
    holds under the name of the form of the message, not with the value
    of the overrides.  (No property has a name of [Object.prototype].) *)
Theorem messageToObject_other_form_name g message (shortFormat : bool)
    (long short : string) :
  (long, short) ∈ dual_names →
  ordinary (default ∅ message) →
  is_Some (default ∅ message !! (if shortFormat then long else short)) →
  let m := createMessage g message shortFormat in
  ∃ r, messageToObject m = Ok r
       ∧ r !! (if shortFormat then long else short)
         = Some (read (target m) (if shortFormat then short else long)).
Proof.
  intros Hin _ [v Hv] m.
  destruct (messageToObject_lookup m) as (r & E & Hr).
  exists r. split; [exact E|]. rewrite Hr.
  assert (Ht : target m !! (if shortFormat then long else short) = Some v).
  { subst m. unfold createMessage, assign. cbn [target].
    destruct shortFormat; cbn [negb]; apply lookup_union_Some_l, Hv. }
  rewrite Ht. cbn [fmap option_fmap option_map]. f_equal.
  subst m. unfold field.
  change (createMessage g message shortFormat)
    with (Proxy (target (createMessage g message shortFormat)) shortFormat).
  destruct (get_other_form (target (createMessage g message shortFormat))
              long short Hin) as [H1 H2].
  destruct shortFormat; [rewrite H1|rewrite H2]; reflexivity.
Qed.

Lemma messageToObject_other_form_name_witness :
  let g := mkGen "7b0a" "x3f" "2016-06-01T00:00:00.000Z" in
  let o : object := {[ "frm" := VString "client:/" ]} in
  ∃ r, messageToObject (createMessage g (Some o) false) = Ok r
       ∧ r !! "frm" = Some VUndefined.
Proof.
  intros g o.
  refine (messageToObject_other_form_name g (Some o) false "from" "frm" _ _ _).
  - apply list_elem_of_here.
  - intros k Hk. subst o. apply lookup_singleton_ne. intros <-. revert Hk.
    change ("frm" ∉ Object_prototype_names). closed_notin.
  - exists (VString "client:/"). reflexivity.
Defined.

(** X16.  [getMessageBody] returns for every message, and returns the
    empty object when the message reads a falsy value under [body]: a
    missing property, [undefined], [null], [false], a zero, [NaN] or the
    empty string. *)
Theorem getMessageBody_without_body h m :
  ∃ r, getMessageBody h m = Ok r
       ∧ (ToBoolean (field m "body") = false → r = ∅).
Proof.
  unfold getMessageBody. rewrite get_ok. cbn [mbind js_bind].
  eexists. split; [reflexivity|]. intros H. unfold assign.
  rewrite (right_id_L ∅ (∪)).
  destruct (field m "body") as [| |b|x|n|s|i|ref]; try reflexivity;
    cbn [ToBoolean] in H; try discriminate H.
  cbn [own_enumerable]. destruct s as [|c s]; [reflexivity|discriminate H].
Qed.

(** X17.  For the message that [createMessage] returns, [getMessageBody]
    copies the properties of the payload of the overrides: of their
    [body] for a long-form message, of their [bdy] for a short-form
    message; neither the overrides nor the payload having a property
    named as a member of [Object.prototype]. *)
Theorem getMessageBody_createMessage h g message (shortFormat : bool) :
  let payload :=
    read (default ∅ message) (if shortFormat then "bdy" else "body") in
  ordinary (default ∅ message) →
  ordinary (own_enumerable h payload) →
  getMessageBody h (createMessage g message shortFormat)
  = Ok (own_enumerable h payload).
Proof.
  intros payload _ _. subst payload.
  unfold getMessageBody. rewrite get_ok. cbn [mbind js_bind mret js_ret].
  unfold assign. rewrite (right_id_L ∅ (∪)).
  change (createMessage g message shortFormat)
    with (Proxy (target (createMessage g message shortFormat)) shortFormat).
  destruct (field_proxy_validated
              (target (createMessage g message shortFormat)) shortFormat)
    as (_ & _ & _ & -> & _).
  destruct shortFormat;
    rewrite read_createMessage_other by closed_notin; reflexivity.
Qed.

Lemma getMessageBody_createMessage_witness :
  let g := mkGen "7b0a" "x3f" "2016-06-01T00:00:00.000Z" in
  let h : nat → object := λ _, {[ "user" := VString "u7" ]} in
  let o : object := <["to" := VString "svc:/"]>
                      (<["bdy" := VObject 0]> ∅) in
  getMessageBody h (createMessage g (Some o) true)
  = Ok {[ "user" := VString "u7" ]}
  ∧ getMessageBody h (createMessage g (Some o) false) = Ok ∅.
Proof.
  intros g h o.
  assert (Ho : ordinary o) by (subst o; closed_ordinary).
  split.
  - refine (getMessageBody_createMessage h g (Some o) true Ho _).
    closed_ordinary.
  - refine (getMessageBody_createMessage h g (Some o) false Ho _).
    closed_ordinary.
Defined.

End ProjectionSpec.
